(** * nwup: the update lifecycle of a packaged NW.js application

    A shallow embedding of [nwup.js].  The module keeps its lifecycle
    phase in one JSON blob under [localStorage.nwup], compares versions
    with [semver], rebuilds the executable from the runtime prefix and a
    downloaded archive, and replaces the running binary across two
    restarts.

    JavaScript objects used as dictionaries are finite maps, promises are
    a three-valued state with Q's first-settlement-wins rule, and every
    callback of the source is a function on an explicit world. *)

From Stdlib Require Import ZArith NArith String Ascii List Lia.
From Stdlib.Strings Require Import Byte.
From stdpp Require Import gmap strings list fin_maps pretty.
Import ListNotations.

Set Warnings "-register-all".

Local Open Scope string_scope.
Local Open Scope list_scope.

(** ** JavaScript values that flow through the module *)

Inductive jsval :=
| JNull
| JUndefined
| JNaN
| JNum (n : N)
| JStr (s : string).

(** [!v] *)
Definition js_falsy (v : jsval) : bool :=
  match v with
  | JNull | JUndefined | JNaN => true
  | JNum n => N.eqb n 0
  | JStr s => String.eqb s ""
  end.

Definition parse_digit (c : ascii) : option N :=
  let n := N_of_ascii c in
  if (48 <=? n)%N && (n <=? 57)%N then Some (n - 48)%N else None.

Fixpoint parse_decimal_from (acc : N) (s : string) : option N :=
  match s with
  | EmptyString => Some acc
  | String c rest =>
      match parse_digit c with
      | Some d => parse_decimal_from (10 * acc + d)%N rest
      | None => None
      end
  end.

(** [Number(s)] where it is a natural number: a string of decimal
    digits, or the empty string, which reads as 0.  The strings compared
    with numbers here are [content-length] headers; other spellings
    (signs, exponents, blanks) read as no natural number.  Numbers are
    byte counts, far below 2^53, so that the sums of doubles are exact. *)
Definition parse_decimal (s : string) : option N := parse_decimal_from 0 s.

(** [v == s] for a string [s]: no coercion ever makes [null],
    [undefined] or [NaN] equal to a string; a number is compared with
    the number the string reads as. *)
Definition js_eq_str (v : jsval) (s : string) : bool :=
  match v with
  | JStr t => String.eqb t s
  | JNum n => match parse_decimal s with Some m => N.eqb n m | None => false end
  | JNull | JUndefined | JNaN => false
  end.

(** [v += n] for a number [n] *)
Definition js_add_num (v : jsval) (n : N) : jsval :=
  match v with
  | JNum m => JNum (m + n)
  | JNull => JNum n
  | JUndefined | JNaN => JNaN
  | JStr s => JStr (s +:+ pretty n)
  end.

(** ** PersistentState: the blob under [localStorage.nwup] *)

Module Persist.

Definition MODE_UPDATE := "UPDATE".
Definition MODE_CLEAN := "CLEAN".
Definition DATA_MODE := "mode".
Definition DATA_EXECPATH := "execPath".

(** [localStorage.nwup] is either missing or the serialisation of an
    object whose fields hold strings; it is kept here in parsed form
    ([JSON.parse] after [JSON.stringify] gives the object back, and a
    serialised object is never the empty string, so a stored blob is
    truthy).  The module reads and writes the two fields [mode] and
    [execPath] only; for these a property of the object is one of its
    own fields, which is what the map holds.  A name that every
    JavaScript object inherits ([constructor], [toString], [__proto__])
    is outside this model. *)
Abbreviation storage := (option (gmap string string)).

Definition storeData (data : list (string * string)) (ls : storage) : storage :=
  let nwup := match ls with Some o => o | None => ∅ end in
  Some (fold_left (fun (o : gmap string string) kv => <[kv.1 := kv.2]> o) data nwup).

Definition getData (key : string) (ls : storage) : jsval :=
  match ls with
  | None => JNull
  | Some nwup =>
      match nwup !! key with
      | Some v => JStr v
      | None => JUndefined
      end
  end.

Definition removeData (key : string) (ls : storage) : storage :=
  match ls with
  | None => None
  | Some nwup => Some (delete key nwup)
  end.

End Persist.
Import Persist.

(** ** ProcessReplacer and the effects of the coordinator *)

Inductive callback := CbCompleteUpdate.

Inductive effect :=
| ESpawnDetached (execPath : string)
| EUnref
| EHideWindow
| EAppQuit
| ECreateReadStream (path : string)
| ECreateReadRange (path : string) (first last : N)
| ECreateWriteStream (path : string)
| ECreateAppendStream (path : string)
| EMkdirp (path : string)
| EHttpGet (url : string)
| EUnlink (path : string)
| ERename (src dst : string)
| EPipe (src dst : string)
| ESetTimeout (cb : callback) (delay : Z)
| ERimraf (glob : string).

(** [respawn]: spawn detached, unref, hide the window, quit.  A failure
    to launch comes later, as an ['error'] event of the child, and is
    rethrown. *)
Definition respawn (execPath : string) : list effect :=
  [ESpawnDetached execPath; EUnref; EHideWindow; EAppQuit].

(** What one public operation of the coordinator leaves behind. *)
Record outcome := Outcome {
  store : storage;
  effects : list effect;
  thrown : option string
}.

Definition quiet (ls : storage) : outcome := Outcome ls [] None.

(** ** LifecycleCoordinator *)

Definition isUpdating (ls : storage) : bool :=
  js_eq_str (getData DATA_MODE ls) MODE_UPDATE.

Definition needsCleaning (ls : storage) : bool :=
  js_eq_str (getData DATA_MODE ls) MODE_CLEAN.

(** [updatePath] is the path [downloadUpdate] resolved with; the empty
    string is the falsy path. *)
Definition applyUpdate (execPath : string) (updatePath : string) (ls : storage) : outcome :=
  if js_falsy (JStr updatePath) then quiet ls
  else
    let data := [(DATA_MODE, MODE_UPDATE); (DATA_EXECPATH, execPath)] in
    Outcome (storeData data ls) (respawn updatePath) None.

(** How the copy started by [readStream.pipe(writeStream)] ends: the
    write stream finishes, the write stream fails, or the read stream
    fails. *)
Inductive copy_result :=
| CopyFinish
| CopyWriteError (err : string)
| CopyReadError (err : string).

Definition completeUpdate (execPath : string) (io : copy_result) (ls : storage) : outcome :=
  let oldExecPath := getData DATA_EXECPATH ls in
  if js_falsy oldExecPath then quiet ls
  else
    let newExecPath := execPath in
    if js_eq_str oldExecPath newExecPath then
      Outcome (removeData DATA_EXECPATH (removeData DATA_MODE ls)) [] None
    else
      match oldExecPath with
      | JStr old =>
          let streams :=
            [ECreateReadStream newExecPath; ECreateWriteStream old; EPipe newExecPath old] in
          match io with
          | CopyReadError err => Outcome ls streams (Some err)
          | CopyWriteError _ =>
              Outcome ls (streams ++ [ESetTimeout CbCompleteUpdate 1000]) None
          | CopyFinish =>
              Outcome (storeData [(DATA_MODE, MODE_CLEAN)] (removeData DATA_EXECPATH ls))
                      (streams ++ respawn old) None
          end
      | _ => quiet ls  (* [getData] yields [null], [undefined] or a string *)
      end.


(** [path.dirname] and [path.join] of the Windows flavour, without the
    normalisation of dots and drive letters: the directory of a path is
    what stands before its last separator. *)
Definition is_sep (c : ascii) : bool :=
  Ascii.eqb c "\"%char || Ascii.eqb c "/"%char.

Fixpoint dirname_aux (p : string) : option string :=
  match p with
  | EmptyString => None
  | String c rest =>
      match dirname_aux rest with
      | Some d => Some (String c d)
      | None => if is_sep c then Some EmptyString else None
      end
  end.

Definition path_dirname (p : string) : string :=
  match dirname_aux p with
  | Some EmptyString => "\"
  | Some d => d
  | None => "."
  end.

(** [path.join] on what the module passes to it: the directory of an
    absolute, normalised Windows path followed by plain names, where
    joining is concatenation with the separator and the normalisation
    of [path.join] changes nothing. *)
Definition path_join (parts : list string) : string :=
  match parts with
  | [] => "."
  | p :: rest => fold_left (fun acc q => acc +:+ "\" +:+ q) rest p
  end.

(** ** Promises of Q: the first settlement wins, later ones are dropped *)

Inductive promise (A : Type) :=
| Pending
| Fulfilled (value : A)
| Rejected (reason : string).
Arguments Pending {A}.
Arguments Fulfilled {A} value.
Arguments Rejected {A} reason.

Definition reject {A} (reason : string) (d : promise A) : promise A :=
  match d with Pending => Rejected reason | _ => d end.

Definition resolve {A} (value : A) (d : promise A) : promise A :=
  match d with Pending => Fulfilled value | _ => d end.

Definition reject_if {A} (err : option string) (d : promise A) : promise A :=
  match err with Some e => reject e d | None => d end.

(** [clean]: [rimraf_err] is what [rimraf] hands to its callback. *)
Definition clean (execPath : string) (rimraf_err : option string) (ls : storage)
  : outcome * promise unit :=
  let baseDir := path_dirname execPath in
  let tmpPath := path_join [baseDir; "tmp"] in
  let updatePath := path_join [baseDir; "update.exe"] in
  let rimglob := "{" +:+ tmpPath +:+ "," +:+ updatePath +:+ "}" in
  let deferred := reject_if rimraf_err Pending in
  (Outcome (removeData DATA_MODE ls) [ERimraf rimglob] None, resolve tt deferred).

(** The timer loop of [completeUpdate]: each element of [ios] is how the
    copy of one invocation ends; an invocation that armed the timer is
    followed by the next one, on the store it left. *)
Definition rearmed (o : outcome) : bool :=
  existsb (fun e => match e with ESetTimeout CbCompleteUpdate _ => true | _ => false end)
          (effects o).


(** The lifecycle phase a store denotes. *)
Inductive LifecyclePhase := NONE | UPDATING | CLEANING.

Definition phase (ls : storage) : LifecyclePhase :=
  if isUpdating ls then UPDATING
  else if needsCleaning ls then CLEANING
  else NONE.




(** ** Callback bodies: a state monad with uncaught exceptions

    A callback runs on a state [S]; [inl e] is an exception that
    nothing in the module catches, and the state it leaves behind
    stays as it is. *)

Definition cb (S A : Type) : Type := S -> S * (string + A).

#[global] Instance cb_ret {S} : MRet (cb S) :=
  fun A (a : A) s => (s, inr a).

#[global] Instance cb_bind {S} : MBind (cb S) :=
  fun A B (f : A -> cb S B) (m : cb S A) s =>
    match m s with
    | (s', inr a) => f a s'
    | (s', inl e) => (s', inl e)
    end.

Definition throw {S A} (e : string) : cb S A := fun s => (s, inl e).
Definition get_state {S} : cb S S := fun s => (s, inr s).
Definition modify {S} (f : S -> S) : cb S unit := fun s => (f s, inr tt).
Definition when_some {S} (o : option string) (k : string -> cb S unit) : cb S unit :=
  match o with Some e => k e | None => mret tt end.

(** ** VersionOracle *)

(** Semantic versions as [semver] holds them after parsing: three
    numbers and the pre-release identifiers, the numeric ones as
    numbers.  Build metadata plays no part in precedence. *)
Module Semver.

Inductive identifier := IdNum (n : N) | IdStr (s : string).

Record SemVer := {
  major : N;
  minor : N;
  patch : N;
  prerelease : list identifier
}.

Definition identifier_eqb (a b : identifier) : bool :=
  match a, b with
  | IdNum x, IdNum y => N.eqb x y
  | IdStr s, IdStr t => String.eqb s t
  | _, _ => false
  end.

(** A numeric identifier is lower than an alphanumeric one; two numbers
    compare as numbers, two strings in code-unit order. *)
Definition compareIdentifiers (a b : identifier) : comparison :=
  match a, b with
  | IdNum x, IdNum y => N.compare x y
  | IdNum _, IdStr _ => Lt
  | IdStr _, IdNum _ => Gt
  | IdStr s, IdStr t => String.compare s t
  end.

Fixpoint compareIds (a b : list identifier) : comparison :=
  match a, b with
  | [], [] => Eq
  | _ :: _, [] => Gt
  | [], _ :: _ => Lt
  | x :: a', y :: b' =>
      if identifier_eqb x y then compareIds a' b' else compareIdentifiers x y
  end.

Definition compareMain (a b : SemVer) : comparison :=
  match N.compare (major a) (major b) with
  | Eq =>
      match N.compare (minor a) (minor b) with
      | Eq => N.compare (patch a) (patch b)
      | c => c
      end
  | c => c
  end.

Definition comparePre (a b : SemVer) : comparison :=
  match prerelease a, prerelease b with
  | _ :: _, [] => Lt
  | [], _ :: _ => Gt
  | [], [] => Eq
  | pa, pb => compareIds pa pb
  end.

Definition compare (a b : SemVer) : comparison :=
  match compareMain a b with
  | Eq => comparePre a b
  | c => c
  end.

(** Precedence as semver.org words it (item 11), for comparison with
    [compare]. *)
Inductive id_precedes : identifier -> identifier -> Prop :=
| id_num_num x y : (x < y)%N -> id_precedes (IdNum x) (IdNum y)
| id_num_str x t : id_precedes (IdNum x) (IdStr t)
| id_str_str s t : String.compare s t = Lt -> id_precedes (IdStr s) (IdStr t).

Inductive ids_precede : list identifier -> list identifier -> Prop :=
| ids_shorter y b : ids_precede [] (y :: b)
| ids_head x y a b : id_precedes x y -> ids_precede (x :: a) (y :: b)
| ids_tail x a b : ids_precede a b -> ids_precede (x :: a) (x :: b).

Inductive precedes (a b : SemVer) : Prop :=
| prec_major : (major a < major b)%N -> precedes a b
| prec_minor : major a = major b -> (minor a < minor b)%N -> precedes a b
| prec_patch :
    major a = major b -> minor a = minor b -> (patch a < patch b)%N -> precedes a b
| prec_release :
    major a = major b -> minor a = minor b -> patch a = patch b ->
    prerelease a <> [] -> prerelease b = [] -> precedes a b
| prec_pre :
    major a = major b -> minor a = minor b -> patch a = patch b ->
    prerelease a <> [] -> ids_precede (prerelease a) (prerelease b) -> precedes a b.

End Semver.

(** What [JSON.parse] returns. *)
Inductive json :=
| JsonNull
| JsonBool (b : bool)
| JsonNumber (literal : string)
| JsonString (s : string)
| JsonArray (items : list json)
| JsonObject (fields : list (string * json)).

Fixpoint json_field (key : string) (fields : list (string * json)) : option json :=
  match fields with
  | [] => None
  | (k, v) :: rest => if String.eqb k key then Some v else json_field key rest
  end.

(** The application manifest read by the constructor. *)
Record Manifest := {
  version : string;
  nwup_updateManifest : string;
  nwup_runtimesize : N;
  nwup_mode : option string
}.

Record nwup := {
  currentVersion : string;
  remoteAddress : string;
  runtimesize : N;
  isDevMode : bool
}.

Definition nwup_new (manifest : Manifest) : nwup :=
  {| currentVersion := version manifest;
     remoteAddress := nwup_updateManifest manifest;
     runtimesize := nwup_runtimesize manifest;
     isDevMode := match nwup_mode manifest with
                  | Some m => String.eqb m "DEVEL"
                  | None => false
                  end |}.

Record Response := { statusCode : Z }.

Record UpdateCheck := {
  updateAvailable : bool;
  updateInformation : json
}.

Section VersionOracle.

(** [JSON.parse] and the parser inside [semver]: [None] is the
    exception each raises on text it does not accept. *)
Variable JSON_parse : string -> option json.
Variable semver_parse : string -> option Semver.SemVer.

(** [semver.lt(v1, v2)]: [v1] is the current version, a string; [v2] is
    what the manifest holds under [version], [None] for [undefined].
    Anything but a string that parses is an invalid version. *)
Definition semver_lt (v1 : string) (v2 : option json) : cb (promise UpdateCheck) bool :=
  match semver_parse v1, v2 with
  | Some a, Some (JsonString s2) =>
      match semver_parse s2 with
      | Some b => mret (match Semver.compare a b with Lt => true | _ => false end)
      | None => throw "TypeError: Invalid Version"
      end
  | _, _ => throw "TypeError: Invalid Version"
  end.

(** [remoteManifest.version]: a property read throws on [null] and gives
    [undefined] on a value without the property. *)
Definition manifest_version (remoteManifest : json) : cb (promise UpdateCheck) (option json) :=
  match remoteManifest with
  | JsonNull => throw "TypeError: Cannot read property 'version' of null"
  | JsonObject fields => mret (json_field "version" fields)
  | _ => mret None
  end.

Definition rejecting (reason : string) : cb (promise UpdateCheck) unit :=
  modify (reject reason).

Definition resolving (value : UpdateCheck) : cb (promise UpdateCheck) unit :=
  modify (resolve value).

(** The callback handed to [request]. *)
Definition checkForUpdate_callback (self : nwup)
    (error : option string) (response : option Response) (body : string)
  : cb (promise UpdateCheck) unit :=
  when_some error rejecting ;;
  response ← match response with
             | Some r => mret r
             | None => throw "TypeError: Cannot read property 'statusCode' of undefined"
             end ;
  (if bool_decide (statusCode response ≠ 200%Z)
   then rejecting ("Server responded with status code: " +:+ pretty (statusCode response))
   else mret tt) ;;
  if bool_decide (statusCode response = 200%Z) then
    remoteManifest ← match JSON_parse body with
                     | Some j => mret j
                     | None => throw "SyntaxError: Unexpected token"
                     end ;
    remoteVersion ← manifest_version remoteManifest ;
    newer ← semver_lt (currentVersion self) remoteVersion ;
    let updateAvailable := if (newer : bool) then true else false in
    resolving {| updateAvailable := updateAvailable;
                 updateInformation := remoteManifest |}
  else mret tt.

(** How the fetch ends: [request] calls back once, with an error and no
    response, or with a response and its body. *)
Inductive request_outcome :=
| ReqError (error : string)
| ReqDone (response : Response) (body : string).

Definition checkForUpdate (self : nwup) (o : request_outcome)
  : promise UpdateCheck * (string + unit) :=
  match o with
  | ReqError e => checkForUpdate_callback self (Some e) None "" Pending
  | ReqDone r body => checkForUpdate_callback self None (Some r) body Pending
  end.

End VersionOracle.

(** ** RuntimeMerger and DownloadTracker *)

(** A progress notification carries one of the two fields. *)
Inductive progress :=
| TotalSize (v : jsval)
| ReceivedSize (v : jsval).

(** How the streamed fetch of the archive goes: an error before any
    response, or a response with its status, its [content-length] header
    when the server sent one, the chunks of the body that arrived, and
    how the body ends: ['end'] alone ([None]), or an ['error'] of the
    request when the connection breaks, which the request lets its
    ['end'] follow. *)
Inductive http_outcome :=
| HttpError (err : string)
| HttpResponse (status : Z) (content_length : option string)
               (chunks : list (list byte)) (late_error : option string).

(** What the process and the machine around it answer during one
    [downloadUpdate]. *)
Record Env := {
  process_execPath : string;
  Date_now : N;
  disk : gmap string (list byte);
  mkdirp_err : option string;
  runtime_write_err : option string;
  download : http_outcome;
  zip_write_err : option string;
  merge_write_err : option string;
  unlink_err : option string;
  rename_err : option string;
  rename_answers_first : bool
}.

(** The world of one run: the files, the deferred and what it notified,
    the calls made, and the two variables of the closure.  File contents
    are followed along the path to fulfilment; a step that fails settles
    the deferred and leaves the files as they were. *)
Record World := {
  files : gmap string (list byte);
  deferred : promise string;
  notified : list progress;
  trace : list effect;
  totalSize : jsval;
  receivedSize : jsval
}.

Definition world0 (env : Env) : World :=
  {| files := disk env; deferred := Pending; notified := []; trace := [];
     totalSize := JUndefined; receivedSize := JUndefined |}.

Definition io (e : effect) : cb World unit :=
  modify (fun w => {| files := files w; deferred := deferred w; notified := notified w;
                      trace := trace w ++ [e];
                      totalSize := totalSize w; receivedSize := receivedSize w |}).

Definition set_files (f : gmap string (list byte) -> gmap string (list byte)) : cb World unit :=
  modify (fun w => {| files := f (files w); deferred := deferred w; notified := notified w;
                      trace := trace w;
                      totalSize := totalSize w; receivedSize := receivedSize w |}).

Definition deferred_reject (reason : string) : cb World unit :=
  modify (fun w => {| files := files w; deferred := reject reason (deferred w);
                      notified := notified w; trace := trace w;
                      totalSize := totalSize w; receivedSize := receivedSize w |}).

Definition deferred_resolve (value : string) : cb World unit :=
  modify (fun w => {| files := files w; deferred := resolve value (deferred w);
                      notified := notified w; trace := trace w;
                      totalSize := totalSize w; receivedSize := receivedSize w |}).

(** Q drops a notification once the promise is settled. *)
Definition deferred_notify (p : progress) : cb World unit :=
  modify (fun w => {| files := files w; deferred := deferred w;
                      notified := match deferred w with
                                  | Pending => notified w ++ [p]
                                  | _ => notified w
                                  end;
                      trace := trace w;
                      totalSize := totalSize w; receivedSize := receivedSize w |}).

Definition set_totalSize (v : jsval) : cb World unit :=
  modify (fun w => {| files := files w; deferred := deferred w; notified := notified w;
                      trace := trace w; totalSize := v; receivedSize := receivedSize w |}).

Definition set_receivedSize (f : jsval -> jsval) : cb World unit :=
  modify (fun w => {| files := files w; deferred := deferred w; notified := notified w;
                      trace := trace w; totalSize := totalSize w;
                      receivedSize := f (receivedSize w) |}).

(** [fs.createReadStream(path, {start, end})] reads the bytes from
    offset [start] to offset [end], both included, or to the end of the
    file when it is shorter. *)
Definition read_range (first last : N) (content : list byte) : list byte :=
  take (N.to_nat (last - first + 1)) (drop (N.to_nat first) content).

Definition append_to (path : string) (data : list byte)
    (fs : gmap string (list byte)) : gmap string (list byte) :=
  <[path := (default [] (fs !! path) ++ data)%list]> fs.

(** [fs.rename] callback, then [deferred.resolve]. *)
Definition renamed (env : Env) (runtimePath newExecPath : string) : cb World unit :=
  w ← get_state ;
  match rename_err env, files w !! runtimePath with
  | Some e, _ => deferred_reject e
  | None, None => deferred_reject "ENOENT"
  | None, Some merged =>
      set_files (fun fs => <[newExecPath := merged]> (delete runtimePath fs))
  end ;;
  deferred_resolve newExecPath.

(** [fs.unlink] callback. *)
Definition unlinked (env : Env) (updatePath : string) : cb World unit :=
  match unlink_err env with
  | Some e => deferred_reject e
  | None => set_files (delete updatePath)
  end.

(** ['finish'] of the stream that appended the archive to the runtime:
    [unlink] and [rename] are both called, one after the other, and
    their callbacks run in the order the machine answers, which
    [rename_answers_first] tells. *)
Definition merge_finished (env : Env) (runtimePath updatePath : string) : cb World unit :=
  io (EUnlink updatePath) ;;
  let newExecPath := path_join [path_dirname (process_execPath env); "update.exe"] in
  io (ERename runtimePath newExecPath) ;;
  if rename_answers_first env
  then renamed env runtimePath newExecPath ;; unlinked env updatePath
  else unlinked env updatePath ;; renamed env runtimePath newExecPath.

(** ['end'] of the request: append [update.zip] to the runtime file.
    The read stream is taken to find every chunk that was piped into
    [update.zip]; the source opens it on ['end'] without waiting for
    ['finish'] of the stream that writes the file. *)
Definition request_end (env : Env) (runtimePath updatePath : string) : cb World unit :=
  io (ECreateReadStream updatePath) ;;
  io (ECreateAppendStream runtimePath) ;;
  io (EPipe updatePath runtimePath) ;;
  w ← get_state ;
  match files w !! updatePath, merge_write_err env with
  | None, _ => deferred_reject "ENOENT"
  | Some _, Some e => deferred_reject e
  | Some zip, None =>
      set_files (append_to runtimePath zip) ;;
      merge_finished env runtimePath updatePath
  end.

(** ['data'] of the request, once per chunk; [piped] tells whether the
    response handler piped the request into [update.zip]. *)
Fixpoint request_data (piped : bool) (updatePath : string) (chunks : list (list byte))
  : cb World unit :=
  match chunks with
  | [] => mret tt
  | data :: rest =>
      set_receivedSize (fun r => js_add_num r (N.of_nat (length data))) ;;
      w ← get_state ;
      deferred_notify (ReceivedSize (receivedSize w)) ;;
      (if piped then set_files (append_to updatePath data) else mret tt) ;;
      request_data piped updatePath rest
  end.

(** ['response'] of the request; returns whether the body is piped. *)
Definition request_response (env : Env) (status : Z) (content_length : option string)
    (updatePath : string) : cb World bool :=
  if bool_decide (status ≠ 200%Z) then
    deferred_reject "update file not found. server replied with code:" ;;
    mret false
  else
    set_totalSize (match content_length with Some s => JStr s | None => JUndefined end) ;;
    set_receivedSize (fun _ => JNum 0) ;;
    w ← get_state ;
    deferred_notify (TotalSize (totalSize w)) ;;
    io (ECreateWriteStream updatePath) ;;
    match zip_write_err env with
    | Some e => throw e
    | None => set_files (fun fs => <[updatePath := []]> fs) ;; mret true
    end.

(** ['finish'] of the stream that received the runtime prefix. *)
Definition runtime_finished (env : Env) (updateLocation tmpPath runtimePath : string)
  : cb World unit :=
  let updatePath := path_join [tmpPath; "update.zip"] in
  io (EHttpGet updateLocation) ;;
  match download env with
  | HttpError e => deferred_reject e
  | HttpResponse status content_length chunks late_error =>
      piped ← request_response env status content_length updatePath ;
      request_data piped updatePath chunks ;;
      when_some late_error deferred_reject ;;
      request_end env runtimePath updatePath
  end.

(** The callback of [mkdirp], with [execStream.pipe(runtimeStream)] at
    its end.  When the directory could not be made the write stream
    cannot open either, and nothing follows. *)
Definition mkdirp_done (self : nwup) (env : Env) (updateLocation tmpPath : string)
  : cb World unit :=
  let execPath := process_execPath env in
  when_some (mkdirp_err env) deferred_reject ;;
  let runtimePath := path_join [tmpPath; "exportednw"] in
  io (ECreateWriteStream runtimePath) ;;
  io (EPipe execPath runtimePath) ;;
  match mkdirp_err env, disk env !! execPath, runtime_write_err env with
  | Some _, _, _ => deferred_reject "ENOENT"
  | None, None, _ => deferred_reject "ENOENT"
  | None, Some _, Some e => deferred_reject e
  | None, Some exe, None =>
      set_files (fun fs => <[runtimePath := read_range 0 (runtimesize self) exe]> fs) ;;
      runtime_finished env updateLocation tmpPath runtimePath
  end.

Definition downloadUpdate (self : nwup) (env : Env) (updateLocation : string)
  : World * (string + unit) :=
  if isDevMode self then
    ({| files := disk env;
        deferred := Rejected "Update aborted in development environment";
        notified := []; trace := [];
        totalSize := JUndefined; receivedSize := JUndefined |}, inr tt)
  else
    let execPath := process_execPath env in
    (io (ECreateReadRange execPath 0 (runtimesize self)) ;;
     let tmpPath := path_join [path_dirname execPath; "tmp"; pretty (Date_now env)] in
     io (EMkdirp tmpPath) ;;
     mkdirp_done self env updateLocation tmpPath) (world0 env).

(** ** Reading a run's progress notifications *)

Definition received_values (ps : list progress) : list jsval :=
  omap (fun p => match p with ReceivedSize v => Some v | TotalSize _ => None end) ps.

Definition announced_total (ps : list progress) : option jsval :=
  match ps with
  | TotalSize v :: _ => Some v
  | _ => None
  end.

Definition final_received (ps : list progress) : option jsval :=
  last (received_values ps).

(** [a <= b] on numbers *)
Definition js_le (a b : jsval) : bool :=
  match a, b with
  | JNum x, JNum y => (x <=? y)%N
  | _, _ => false
  end.

Fixpoint nondecreasing (vs : list jsval) : bool :=
  match vs with
  | a :: (b :: _) as rest => js_le a b && nondecreasing rest
  | _ => true
  end.

(** [a == b] *)
Definition js_eq (a b : jsval) : bool :=
  match a, b with
  | JStr s, JStr t => String.eqb s t
  | JNum x, JNum y => N.eqb x y
  | JNum _, JStr t => js_eq_str a t
  | JStr s, JNum _ => js_eq_str b s
  | JNull, JNull | JNull, JUndefined | JUndefined, JNull | JUndefined, JUndefined => true
  | _, _ => false
  end.

(** The final [receivedSize] equals the announced [totalSize]. *)
Definition final_matches_total (ps : list progress) : Prop :=
  exists total final,
    announced_total ps = Some total /\ final_received ps = Some final /\
    js_eq final total = true.

(** The byte counts after each chunk, from [acc] on. *)
Fixpoint running_sizes (acc : N) (chunks : list (list byte)) : list N :=
  match chunks with
  | [] => []
  | data :: rest =>
      let acc' := (acc + N.of_nat (length data))%N in
      acc' :: running_sizes acc' rest
  end.

Definition header_value (content_length : option string) : jsval :=
  match content_length with Some s => JStr s | None => JUndefined end.

Definition staged_path (env : Env) : string :=
  path_join [path_dirname (process_execPath env); "update.exe"].

(** ** Parsers to run the oracle on examples

    The version oracle is stated for any [JSON.parse] and any version
    parser.  These two accept a small part of the real syntax and serve
    to evaluate it: versions written MAJOR.MINOR.PATCH with an optional
    dash and dotted pre-release identifiers, and manifests that are one
    object with the single field [version]. *)

Fixpoint split_on (sep : ascii) (s : string) : list string :=
  match s with
  | EmptyString => [EmptyString]
  | String c rest =>
      if Ascii.eqb c sep then EmptyString :: split_on sep rest
      else match split_on sep rest with
           | w :: ws => String c w :: ws
           | [] => [String c EmptyString]
           end
  end.

Fixpoint break_at (sep : ascii) (s : string) : string * option string :=
  match s with
  | EmptyString => (EmptyString, None)
  | String c rest =>
      if Ascii.eqb c sep then (EmptyString, Some rest)
      else let '(a, b) := break_at sep rest in (String c a, b)
  end.

Definition parse_component (s : string) : option N :=
  match s with
  | EmptyString => None
  | _ => parse_decimal s
  end.

Definition parse_identifier (s : string) : option Semver.identifier :=
  match s with
  | EmptyString => None
  | _ => Some (match parse_decimal s with
               | Some n => Semver.IdNum n
               | None => Semver.IdStr s
               end)
  end.

Definition plain_semver_parse (s : string) : option Semver.SemVer :=
  let '(main, pre) := break_at "-"%char s in
  match parse_component <$> split_on "."%char main with
  | [Some ma; Some mi; Some pa] =>
      match pre with
      | None => Some (Semver.Build_SemVer ma mi pa [])
      | Some ids =>
          ids' ← mapM parse_identifier (split_on "."%char ids) ;
          Some (Semver.Build_SemVer ma mi pa ids')
      end
  | _ => None
  end.

Definition dquote : string := String (ascii_of_nat 34) EmptyString.

Fixpoint strip_prefix (p s : string) : option string :=
  match p, s with
  | EmptyString, _ => Some s
  | String a p', String b s' => if Ascii.eqb a b then strip_prefix p' s' else None
  | String _ _, EmptyString => None
  end.

Definition version_only_JSON_parse (body : string) : option json :=
  rest ← strip_prefix ("{" +:+ dquote +:+ "version" +:+ dquote +:+ ":" +:+ dquote) body ;
  match break_at (ascii_of_nat 34) rest with
  | (v, Some "}") => Some (JsonObject [("version", JsonString v)])
  | _ => None
  end.

Definition manifest_body (v : string) : string :=
  "{" +:+ dquote +:+ "version" +:+ dquote +:+ ":" +:+ dquote +:+ v +:+ dquote +:+ "}".

(** The values [receivedSize] takes chunk after chunk, from [r] on. *)
Fixpoint running_values (r : jsval) (chunks : list (list byte)) : list jsval :=
  match chunks with
  | [] => []
  | data :: rest =>
      let r' := js_add_num r (N.of_nat (length data)) in
      r' :: running_values r' rest
  end.

(** ** A packaged application to run the model on

    An executable made of a 1,000-byte runtime and a 500-byte archive,
    installed as [C:\app\app.exe], and an update archive of 2,000 bytes
    that arrives in three chunks. *)

Definition runtime_1000 : list byte := repeat x4d 1000.
Definition old_archive : list byte := repeat x50 500.
Definition packaged_exe : list byte := runtime_1000 ++ old_archive.
Definition payload_chunks : list (list byte) :=
  [repeat x51 700; repeat x51 700; repeat x51 600].
Definition payload_2000 : list byte := concat payload_chunks.

Definition packaged_app : nwup :=
  nwup_new {| version := "1.0.0"; nwup_updateManifest := "http://x/latest.json";
              nwup_runtimesize := 1000; nwup_mode := Some "PROD" |}.

Definition serving (response : http_outcome) : Env :=
  {| process_execPath := "C:\app\app.exe";
     Date_now := 1430000000000;
     disk := {[ "C:\app\app.exe" := packaged_exe ]};
     mkdirp_err := None;
     runtime_write_err := None;
     download := response;
     zip_write_err := None;
     merge_write_err := None;
     unlink_err := None;
     rename_err := None;
     rename_answers_first := false |}.

(** The server announces the length of the archive. *)
Definition download_env : Env :=
  serving (HttpResponse 200 (Some "2000") payload_chunks None).

(** The server streams the archive without a [content-length] header
    (chunked transfer). *)
Definition chunked_env : Env :=
  serving (HttpResponse 200 None payload_chunks None).



(** The two fields the module keeps in the blob. *)
Definition module_key (key : string) : Prop :=
  key = DATA_MODE \/ key = DATA_EXECPATH.

(** ** Notions used to state further properties *)

(** The value [storeData] leaves under [key]: the one of the last entry
    of [data] for that key, as the loop assigns in order. *)
Fixpoint last_value (key : string) (data : list (string * string)) : option string :=
  match data with
  | [] => None
  | (k, v) :: rest =>
      match last_value key rest with
      | Some v' => Some v'
      | None => if String.eqb k key then Some v else None
      end
  end.


(** The paths one [downloadUpdate] works on. *)
Definition tmp_path (env : Env) : string :=
  path_join [path_dirname (process_execPath env); "tmp"; pretty (Date_now env)].

Definition runtime_path (env : Env) : string :=
  path_join [tmp_path env; "exportednw"].

Definition zip_path (env : Env) : string :=
  path_join [tmp_path env; "update.zip"].

(** The four calls every run outside development mode starts with. *)
Definition extraction_calls (self : nwup) (env : Env) : list effect :=
  [ECreateReadRange (process_execPath env) 0 (runtimesize self);
   EMkdirp (tmp_path env);
   ECreateWriteStream (runtime_path env);
   EPipe (process_execPath env) (runtime_path env)].

(** The runtime prefix reached its file: the directory was made, the
    executable could be read and the write stream did not fail. *)
Definition extraction_ok (env : Env) : bool :=
  match mkdirp_err env, disk env !! process_execPath env, runtime_write_err env with
  | None, Some _, None => true
  | _, _, _ => false
  end.

(** The machine of [serving] with chosen failures. *)
Definition env_with (files0 : gmap string (list byte))
    (mkdirp_e runtime_e zip_e merge_e unlink_e rename_e : option string)
    (response : http_outcome) : Env :=
  {| process_execPath := "C:\app\app.exe";
     Date_now := 1430000000000;
     disk := files0;
     mkdirp_err := mkdirp_e;
     runtime_write_err := runtime_e;
     download := response;
     zip_write_err := zip_e;
     merge_write_err := merge_e;
     unlink_err := unlink_e;
     rename_err := rename_e;
     rename_answers_first := false |}.

(** The machine of [serving] where [unlink] fails on the archive and
    answers after [rename]. *)
Definition unlink_fails_env : Env :=
  {| process_execPath := "C:\app\app.exe";
     Date_now := 1430000000000;
     disk := {[ "C:\app\app.exe" := packaged_exe ]};
     mkdirp_err := None;
     runtime_write_err := None;
     download := HttpResponse 200 (Some "2000") payload_chunks None;
     zip_write_err := None;
     merge_write_err := None;
     unlink_err := Some "EBUSY";
     rename_err := None;
     rename_answers_first := true |}.

(** Unfolds the primitives of a callback body and computes. *)
Ltac run_cb :=
  unfold mbind, cb_bind, mret, cb_ret, when_some, io, set_files, deferred_reject,
    deferred_resolve, deferred_notify, set_totalSize, set_receivedSize, modify,
    get_state, throw;
  cbn.

(** * Properties *)

(** ** PersistentState *)

Lemma getData_storeData_one key value ls :
  getData key (storeData [(key, value)] ls) = JStr value.
Proof.
  unfold getData, storeData; cbn. by rewrite lookup_insert_eq.
Qed.

Lemma getData_storeData_other key key' value ls :
  key <> key' ->
  getData key' (storeData [(key, value)] ls) =
  match ls with None => JUndefined | Some _ => getData key' ls end.
Proof.
  intros Hne. unfold getData, storeData; cbn.
  rewrite lookup_insert_ne by done. destruct ls; [done|].
  by rewrite lookup_empty.
Qed.

Lemma getData_removeData_same key ls :
  getData key (removeData key ls) =
  match ls with None => JNull | Some _ => JUndefined end.
Proof.
  destruct ls as [o|]; cbn; [|done]. by rewrite lookup_delete_eq.
Qed.

Lemma getData_removeData_other key key' ls :
  key <> key' -> getData key' (removeData key ls) = getData key' ls.
Proof.
  intros Hne. destruct ls as [o|]; cbn; [|done]. by rewrite lookup_delete_ne.
Qed.

Lemma getData_is_string key ls p :
  getData key ls = JStr p -> exists o, ls = Some o /\ o !! key = Some p.
Proof.
  destruct ls as [o|]; cbn; [|done].
  destruct (o !! key) eqn:E; [|done]. intros [= ->]. eauto.
Qed.

Lemma applyUpdate_store execPath updatePath ls :
  updatePath <> "" ->
  applyUpdate execPath updatePath ls =
  Outcome (storeData [(DATA_MODE, MODE_UPDATE); (DATA_EXECPATH, execPath)] ls)
          (respawn updatePath) None.
Proof.
  intros Hne. unfold applyUpdate; cbn.
  apply String.eqb_neq in Hne. by rewrite Hne.
Qed.

Lemma applyUpdate_persists execPath updatePath ls :
  updatePath <> "" ->
  let ls' := store (applyUpdate execPath updatePath ls) in
  getData DATA_MODE ls' = JStr MODE_UPDATE /\ getData DATA_EXECPATH ls' = JStr execPath.
Proof.
  intros Hne. rewrite applyUpdate_store by done. cbn.
  rewrite lookup_insert_eq, lookup_insert_ne, lookup_insert_eq; done.
Qed.

(** The branch of [completeUpdate] that starts the copy. *)
Lemma completeUpdate_copy execPath io ls old :
  getData DATA_EXECPATH ls = JStr old -> old <> "" -> old <> execPath ->
  completeUpdate execPath io ls =
  let streams := [ECreateReadStream execPath; ECreateWriteStream old; EPipe execPath old] in
  match io with
  | CopyReadError err => Outcome ls streams (Some err)
  | CopyWriteError _ => Outcome ls (streams ++ [ESetTimeout CbCompleteUpdate 1000]) None
  | CopyFinish =>
      Outcome (storeData [(DATA_MODE, MODE_CLEAN)] (removeData DATA_EXECPATH ls))
              (streams ++ respawn old) None
  end.
Proof.
  intros Hget Hne1 Hne2. unfold completeUpdate. rewrite Hget. cbn.
  apply String.eqb_neq in Hne1, Hne2. by rewrite Hne1, Hne2.
Qed.

Lemma completeUpdate_finish_phase execPath ls old :
  getData DATA_EXECPATH ls = JStr old -> old <> "" -> old <> execPath ->
  let ls' := store (completeUpdate execPath CopyFinish ls) in
  getData DATA_MODE ls' = JStr MODE_CLEAN /\ getData DATA_EXECPATH ls' = JUndefined.
Proof.
  intros Hget Hne1 Hne2. rewrite (completeUpdate_copy _ _ _ old) by done. cbn [store].
  split; [apply getData_storeData_one|].
  rewrite getData_storeData_other by done.
  apply getData_is_string in Hget as (o & -> & _). cbn.
  by rewrite lookup_delete_eq.
Qed.

Lemma clean_store execPath err ls :
  store (clean execPath err ls).1 = removeData DATA_MODE ls.
Proof. done. Qed.

Lemma no_mode_no_phase ls :
  getData DATA_MODE ls = JNull \/ getData DATA_MODE ls = JUndefined ->
  isUpdating ls = false /\ needsCleaning ls = false.
Proof. unfold isUpdating, needsCleaning. by intros [-> | ->]. Qed.

(** C2. Across the persisted lifecycle: once [applyUpdate] has stored
    its record, the next process sees [isUpdating() = true]; after a
    [completeUpdate] whose copy finished, the next process sees
    [isUpdating() = false] and [needsCleaning() = true]; after [clean()]
    both are [false].  The updater runs from [stagedPath], the original
    application from [origPath]. *)
Theorem lifecycle_across_restarts (ls0 : storage) (origPath stagedPath : string)
    (rimraf_err : option string) :
  stagedPath <> "" -> origPath <> "" -> origPath <> stagedPath ->
  let ls1 := store (applyUpdate origPath stagedPath ls0) in
  let ls2 := store (completeUpdate stagedPath CopyFinish ls1) in
  let ls3 := store (clean origPath rimraf_err ls2).1 in
  isUpdating ls1 = true /\
  (isUpdating ls2 = false /\ needsCleaning ls2 = true) /\
  (isUpdating ls3 = false /\ needsCleaning ls3 = false).
Proof.
  intros Hs Ho Hne ls1 ls2 ls3.
  destruct (applyUpdate_persists origPath stagedPath ls0 Hs) as [Hm1 Hp1].
  fold ls1 in Hm1, Hp1.
  destruct (completeUpdate_finish_phase stagedPath ls1 origPath Hp1 Ho Hne) as [Hm2 Hp2].
  fold ls2 in Hm2, Hp2.
  split; [|split].
  - unfold isUpdating. by rewrite Hm1.
  - unfold isUpdating, needsCleaning. by rewrite Hm2.
  - apply no_mode_no_phase. subst ls3. rewrite clean_store.
    rewrite getData_removeData_same. destruct ls2; auto.
Qed.

Lemma lifecycle_across_restarts_witness :
  let ls1 := store (applyUpdate "C:\app\app.exe" "C:\app\update.exe" None) in
  let ls2 := store (completeUpdate "C:\app\update.exe" CopyFinish ls1) in
  let ls3 := store (clean "C:\app\app.exe" None ls2).1 in
  isUpdating ls1 = true /\
  (isUpdating ls2 = false /\ needsCleaning ls2 = true) /\
  (isUpdating ls3 = false /\ needsCleaning ls3 = false).
Proof.
  apply (lifecycle_across_restarts None "C:\app\app.exe" "C:\app\update.exe" None);
    discriminate.
Defined.

(** C4. Self-target guard: when the saved path is the path of the
    running executable, [completeUpdate] removes both persisted fields,
    so that the phase is [NONE], and does nothing else: no stream is
    opened, no timer armed, nothing spawned, no window hidden, no quit,
    nothing thrown. *)
Theorem completeUpdate_self_target (execPath : string) (io : copy_result) (ls : storage) :
  execPath <> "" ->
  getData DATA_EXECPATH ls = JStr execPath ->
  let o := completeUpdate execPath io ls in
  getData DATA_MODE (store o) = JUndefined /\
  getData DATA_EXECPATH (store o) = JUndefined /\
  phase (store o) = NONE /\
  effects o = [] /\ thrown o = None.
Proof.
  intros Hne Hget o. subst o. unfold completeUpdate. rewrite Hget. cbn.
  apply String.eqb_neq in Hne. rewrite Hne, String.eqb_refl. cbn.
  apply getData_is_string in Hget as (m & -> & _). cbn.
  unfold phase, isUpdating, needsCleaning. cbn.
  rewrite lookup_delete_eq, lookup_delete_ne, lookup_delete_eq by done. done.
Qed.

Lemma completeUpdate_self_target_witness :
  let ls := Some ({[ "mode" := "UPDATE"; "execPath" := "C:\app\app.exe" ]} : gmap string string) in
  let o := completeUpdate "C:\app\app.exe" CopyFinish ls in
  getData DATA_MODE (store o) = JUndefined /\
  getData DATA_EXECPATH (store o) = JUndefined /\
  phase (store o) = NONE /\
  effects o = [] /\ thrown o = None.
Proof.
  apply (completeUpdate_self_target "C:\app\app.exe" CopyFinish); [discriminate|].
  vm_compute. reflexivity.
Defined.

(** C10. With no saved path in the store (no blob at all, or a blob
    without the field, whatever its [mode]), [completeUpdate] returns at
    once: the store is the one it was given, no effect is performed and
    nothing is thrown. *)
Theorem completeUpdate_without_saved_path (execPath : string) (io : copy_result)
    (ls : storage) :
  (forall p, getData DATA_EXECPATH ls <> JStr p) ->
  completeUpdate execPath io ls = Outcome ls [] None.
Proof.
  intros Hnone. unfold completeUpdate.
  destruct ls as [o|]; cbn in *; [|done].
  destruct (o !! DATA_EXECPATH) as [p|]; [|done].
  by destruct (Hnone p).
Qed.

Lemma completeUpdate_without_saved_path_witness :
  let ls := Some ({[ "mode" := "UPDATE" ]} : gmap string string) in
  isUpdating ls = true /\
  completeUpdate "C:\app\update.exe" CopyFinish ls = Outcome ls [] None.
Proof.
  split; [vm_compute; reflexivity|].
  apply (completeUpdate_without_saved_path "C:\app\update.exe" CopyFinish).
  intros p. vm_compute. discriminate.
Defined.

Lemma getData_cases key ls :
  getData key ls = JNull \/ getData key ls = JUndefined \/
  exists p, getData key ls = JStr p.
Proof.
  destruct ls as [m|]; cbn; [|by left].
  destruct (m !! key); eauto.
Qed.

(** Every branch of [completeUpdate], on any store. *)
Lemma completeUpdate_cases execPath io ls :
  let o := completeUpdate execPath io ls in
  store o = ls \/
  (getData DATA_EXECPATH ls = JStr execPath /\
   store o = removeData DATA_EXECPATH (removeData DATA_MODE ls)) \/
  (io = CopyFinish /\
   store o = storeData [(DATA_MODE, MODE_CLEAN)] (removeData DATA_EXECPATH ls)).
Proof.
  unfold completeUpdate.
  destruct (getData_cases DATA_EXECPATH ls) as [-> | [-> | [old Hold]]];
    [by left | by left |].
  rewrite Hold. cbn [js_falsy js_eq_str].
  destruct (String.eqb_spec old ""); [by left|].
  destruct (String.eqb_spec old execPath) as [->|]; cbn [store].
  - right; left. done.
  - destruct io; cbn [store]; auto.
Qed.


Lemma getData_execPath_after_clear p ls :
  getData DATA_EXECPATH (removeData DATA_EXECPATH ls) <> JStr p.
Proof. rewrite getData_removeData_same. by destruct ls. Qed.



(** Every way [completeUpdate] can end, on any store. *)
Lemma completeUpdate_outcomes execPath io ls :
  completeUpdate execPath io ls = Outcome ls [] None \/
  (getData DATA_EXECPATH ls = JStr execPath /\ execPath <> "" /\
   completeUpdate execPath io ls =
   Outcome (removeData DATA_EXECPATH (removeData DATA_MODE ls)) [] None) \/
  (exists old, getData DATA_EXECPATH ls = JStr old /\ old <> "" /\ old <> execPath /\
   completeUpdate execPath io ls =
   let streams := [ECreateReadStream execPath; ECreateWriteStream old; EPipe execPath old] in
   match io with
   | CopyReadError err => Outcome ls streams (Some err)
   | CopyWriteError _ => Outcome ls (streams ++ [ESetTimeout CbCompleteUpdate 1000]) None
   | CopyFinish =>
       Outcome (storeData [(DATA_MODE, MODE_CLEAN)] (removeData DATA_EXECPATH ls))
               (streams ++ respawn old) None
   end).
Proof.
  destruct (getData_cases DATA_EXECPATH ls) as [E | [E | [old E]]].
  - left. unfold completeUpdate. by rewrite E.
  - left. unfold completeUpdate. by rewrite E.
  - destruct (String.eqb_spec old "") as [->|Hne1].
    { left. unfold completeUpdate. by rewrite E. }
    destruct (String.eqb_spec old execPath) as [->|Hne2].
    + right; left. split; [done|split; [done|]].
      unfold completeUpdate. rewrite E. cbn.
      apply String.eqb_neq in Hne1. by rewrite Hne1, String.eqb_refl.
    + right; right. exists old. by rewrite (completeUpdate_copy _ _ _ old).
Qed.




(** ** Version precedence *)

Module SemverFacts.
Import Semver.

Lemma identifier_eqb_eq x y : identifier_eqb x y = true <-> x = y.
Proof.
  destruct x as [n|s], y as [m|t]; cbn; try (split; discriminate).
  - rewrite N.eqb_eq. split; congruence.
  - rewrite String.eqb_eq. split; congruence.
Qed.

Lemma compareIdentifiers_Lt x y : compareIdentifiers x y = Lt <-> id_precedes x y.
Proof.
  destruct x as [n|s], y as [m|t]; cbn.
  - rewrite N.compare_lt_iff. split; [by constructor|by inversion 1].
  - split; [constructor|done].
  - split; [discriminate|inversion 1].
  - split; [by constructor|by inversion 1].
Qed.

Lemma compareIdentifiers_same x : compareIdentifiers x x = Eq.
Proof.
  destruct x as [n|s]; cbn; [apply N.compare_refl|].
  pose proof (String.compare_antisym s s) as H.
  by destruct (String.compare s s).
Qed.

Lemma compareIdentifiers_antisym x y :
  compareIdentifiers x y = CompOpp (compareIdentifiers y x).
Proof.
  destruct x as [n|s], y as [m|t]; cbn; try done.
  - apply N.compare_antisym.
  - apply String.compare_antisym.
Qed.

Lemma id_precedes_irrefl x : ~ id_precedes x x.
Proof.
  intros H. apply compareIdentifiers_Lt in H.
  by rewrite compareIdentifiers_same in H.
Qed.

Lemma identifier_eqb_sym x y : identifier_eqb x y = identifier_eqb y x.
Proof.
  destruct x, y; cbn; [apply N.eqb_sym|done|done|apply String.eqb_sym].
Qed.

Lemma compareIds_Lt a b : compareIds a b = Lt <-> ids_precede a b.
Proof.
  revert b. induction a as [|x a IH]; intros [|y b]; cbn.
  - split; [discriminate|inversion 1].
  - split; [constructor|done].
  - split; [discriminate|inversion 1].
  - destruct (identifier_eqb x y) eqn:E.
    + apply identifier_eqb_eq in E as ->. rewrite IH. split; [by constructor|].
      inversion 1; subst; [by destruct (id_precedes_irrefl y)|done].
    + rewrite compareIdentifiers_Lt. split; [by constructor|].
      inversion 1; subst; [done|].
      assert (identifier_eqb y y = true) by by apply identifier_eqb_eq.
      congruence.
Qed.

Lemma compareIds_antisym a b : compareIds a b = CompOpp (compareIds b a).
Proof.
  revert b. induction a as [|x a IH]; intros [|y b]; cbn; try done.
  rewrite (identifier_eqb_sym y x).
  destruct (identifier_eqb x y); [apply IH|apply compareIdentifiers_antisym].
Qed.

Lemma compareIds_same a : compareIds a a = Eq.
Proof.
  induction a as [|x a IH]; cbn; [done|].
  by assert (identifier_eqb x x = true) as -> by by apply identifier_eqb_eq.
Qed.

Lemma compare_antisym a b : compare a b = CompOpp (compare b a).
Proof.
  unfold compare, compareMain, comparePre.
  rewrite (N.compare_antisym (major a)), (N.compare_antisym (minor a)),
    (N.compare_antisym (patch a)).
  destruct (major a ?= major b)%N; cbn; try done.
  destruct (minor a ?= minor b)%N; cbn; try done.
  destruct (patch a ?= patch b)%N; cbn; try done.
  destruct (prerelease a) as [|x pa], (prerelease b) as [|y pb]; try done.
  exact (compareIds_antisym (x :: pa) (y :: pb)).
Qed.

Lemma compare_same a : compare a a = Eq.
Proof.
  unfold compare, compareMain, comparePre. rewrite !N.compare_refl.
  destruct (prerelease a) as [|x pa] eqn:E; [done|].
  exact (compareIds_same (x :: pa)).
Qed.

(** [compare] decides the precedence of semver.org. *)
Lemma compare_Lt a b : compare a b = Lt <-> precedes a b.
Proof.
  unfold compare, compareMain, comparePre. split.
  - destruct (N.compare_spec (major a) (major b)) as [Hma|Hma|Hma];
      [|intros _; by apply prec_major|discriminate].
    destruct (N.compare_spec (minor a) (minor b)) as [Hmi|Hmi|Hmi];
      [|intros _; by apply prec_minor|discriminate].
    destruct (N.compare_spec (patch a) (patch b)) as [Hpa|Hpa|Hpa];
      [|intros _; by apply prec_patch|discriminate].
    destruct (prerelease a) as [|x pa] eqn:Ea, (prerelease b) as [|y pb] eqn:Eb;
      try discriminate.
    + intros _. apply prec_release; try done. by rewrite Ea.
    + intros H. apply prec_pre; try done; [by rewrite Ea|].
      rewrite Ea, Eb. by apply compareIds_Lt.
  - intros [H | E1 H | E1 E2 H | E1 E2 E3 Hne Hnil | E1 E2 E3 Hne Hpre].
    + by apply N.compare_lt_iff in H as ->.
    + rewrite E1, N.compare_refl. by apply N.compare_lt_iff in H as ->.
    + rewrite E1, E2, !N.compare_refl. by apply N.compare_lt_iff in H as ->.
    + rewrite E1, E2, E3, !N.compare_refl, Hnil. by destruct (prerelease a).
    + rewrite E1, E2, E3, !N.compare_refl.
      destruct (prerelease a) as [|x pa]; [done|].
      destruct (prerelease b) as [|y pb]; [inversion Hpre|].
      by apply compareIds_Lt.
Qed.

Lemma precedes_decided a b :
  precedes b a \/ a = b -> compare a b <> Lt.
Proof.
  intros [H | ->]; [|by rewrite compare_same].
  apply compare_Lt in H. by rewrite compare_antisym, H.
Qed.

End SemverFacts.

(** ** VersionOracle *)

Section VersionOracleFacts.

Variable JSON_parse : string -> option json.
Variable semver_parse : string -> option Semver.SemVer.

(** End of a successful fetch, whatever the versions are. *)
Lemma checkForUpdate_resolves self body fields remote a b :
  JSON_parse body = Some (JsonObject fields) ->
  json_field "version" fields = Some (JsonString remote) ->
  semver_parse (currentVersion self) = Some a ->
  semver_parse remote = Some b ->
  checkForUpdate JSON_parse semver_parse self (ReqDone {| statusCode := 200 |} body) =
  (Fulfilled {| updateAvailable :=
                  match Semver.compare a b with Lt => true | _ => false end;
                updateInformation := JsonObject fields |}, inr tt).
Proof.
  intros Hbody Hfield Ha Hb.
  unfold checkForUpdate, checkForUpdate_callback, manifest_version, semver_lt.
  cbn. unfold mbind, cb_bind, mret, cb_ret. cbn.
  rewrite Hbody. cbn. rewrite Hfield, Ha, Hb. cbn.
  by destruct (Semver.compare a b).
Qed.

(** C3. With the manifest fetched and parsed, [checkForUpdate] resolves
    with [updateAvailable = true] when the current version precedes the
    remote one, and with [false] when the remote one precedes it or the
    two are the same; precedence is that of semantic versioning, so a
    pre-release of the remote release counts as older. *)
Theorem checkForUpdate_compares_versions self body fields remote a b :
  JSON_parse body = Some (JsonObject fields) ->
  json_field "version" fields = Some (JsonString remote) ->
  semver_parse (currentVersion self) = Some a ->
  semver_parse remote = Some b ->
  let resolved avail :=
    (Fulfilled {| updateAvailable := avail; updateInformation := JsonObject fields |},
     inr tt) in
  (Semver.precedes a b ->
   checkForUpdate JSON_parse semver_parse self (ReqDone {| statusCode := 200 |} body) = resolved true) /\
  (Semver.precedes b a \/ a = b ->
   checkForUpdate JSON_parse semver_parse self (ReqDone {| statusCode := 200 |} body) = resolved false) /\
  (Semver.major a = Semver.major b -> Semver.minor a = Semver.minor b ->
   Semver.patch a = Semver.patch b ->
   Semver.prerelease a <> [] -> Semver.prerelease b = [] ->
   checkForUpdate JSON_parse semver_parse self (ReqDone {| statusCode := 200 |} body) = resolved true).
Proof.
  intros Hbody Hfield Ha Hb resolved.
  rewrite (checkForUpdate_resolves self body fields remote a b) by done.
  assert (Hlt : Semver.precedes a b ->
    (Fulfilled {| updateAvailable :=
                    match Semver.compare a b with Lt => true | _ => false end;
                  updateInformation := JsonObject fields |}, inr tt) = resolved true).
  { intros H. apply SemverFacts.compare_Lt in H. by rewrite H. }
  split; [done|split].
  - intros H. apply SemverFacts.precedes_decided in H.
    by destruct (Semver.compare a b).
  - intros. apply Hlt. by apply Semver.prec_release.
Qed.

(** A fetch error rejects with that error; the callback then reads
    [statusCode] of a response that is not there. *)
Lemma checkForUpdate_fetch_error self err :
  checkForUpdate JSON_parse semver_parse self (ReqError err) =
  (Rejected err, inl "TypeError: Cannot read property 'statusCode' of undefined").
Proof. done. Qed.

(** A status other than 200 rejects once, with the status in the message. *)
Lemma checkForUpdate_bad_status self status body :
  status <> 200%Z ->
  checkForUpdate JSON_parse semver_parse self (ReqDone {| statusCode := status |} body) =
  (Rejected ("Server responded with status code: " +:+ pretty status), inr tt).
Proof.
  intros Hne. unfold checkForUpdate, checkForUpdate_callback.
  cbn. unfold mbind, cb_bind, mret, cb_ret. cbn.
  rewrite bool_decide_true by done. cbn.
  by rewrite bool_decide_false by done.
Qed.

(** C5, on the code: a body that [JSON.parse] refuses makes the callback
    throw; the promise is neither rejected nor resolved. *)
Theorem checkForUpdate_unparseable_body_stays_pending self body :
  JSON_parse body = None ->
  checkForUpdate JSON_parse semver_parse self (ReqDone {| statusCode := 200 |} body) =
  (Pending, inl "SyntaxError: Unexpected token").
Proof.
  intros Hbody. unfold checkForUpdate, checkForUpdate_callback.
  cbn. unfold mbind, cb_bind, mret, cb_ret. cbn.
  by rewrite Hbody.
Qed.

End VersionOracleFacts.

Lemma checkForUpdate_compares_versions_witness :
  checkForUpdate version_only_JSON_parse plain_semver_parse packaged_app
    (ReqDone {| statusCode := 200 |} (manifest_body "1.1.0")) =
  (Fulfilled {| updateAvailable := true;
                updateInformation := JsonObject [("version", JsonString "1.1.0")] |},
   inr tt).
Proof.
  apply (proj1 (checkForUpdate_compares_versions
                  version_only_JSON_parse plain_semver_parse packaged_app
                  (manifest_body "1.1.0") [("version", JsonString "1.1.0")] "1.1.0"
                  (Semver.Build_SemVer 1 0 0 []) (Semver.Build_SemVer 1 1 0 [])
                  eq_refl eq_refl eq_refl eq_refl)).
  apply Semver.prec_minor; [reflexivity|]. vm_compute. reflexivity.
Defined.

Lemma checkForUpdate_unparseable_body_stays_pending_witness :
  checkForUpdate version_only_JSON_parse plain_semver_parse packaged_app
    (ReqDone {| statusCode := 200 |} "<html>Service unavailable</html>") =
  (Pending, inl "SyntaxError: Unexpected token").
Proof.
  apply (checkForUpdate_unparseable_body_stays_pending
           version_only_JSON_parse plain_semver_parse packaged_app
           "<html>Service unavailable</html>").
  vm_compute. reflexivity.
Defined.

(** A pre-release of 1.1.0 is offered the release. *)
Example prerelease_is_older :
  checkForUpdate version_only_JSON_parse plain_semver_parse
    (nwup_new {| version := "1.1.0-beta.2"; nwup_updateManifest := "http://x/latest.json";
                 nwup_runtimesize := 1000; nwup_mode := None |})
    (ReqDone {| statusCode := 200 |} (manifest_body "1.1.0")) =
  (Fulfilled {| updateAvailable := true;
                updateInformation := JsonObject [("version", JsonString "1.1.0")] |},
   inr tt).
Proof. vm_compute. reflexivity. Qed.

(** Status 404 rejects. *)
Example not_found_rejects :
  checkForUpdate version_only_JSON_parse plain_semver_parse packaged_app
    (ReqDone {| statusCode := 404 |} "Not Found") =
  (Rejected "Server responded with status code: 404", inr tt).
Proof. vm_compute. reflexivity. Qed.

(** ** RuntimeMerger and DownloadTracker *)

Lemma path_join_last_inj dir a b : path_join [dir; a] = path_join [dir; b] -> a = b.
Proof.
  unfold path_join; cbn. intros H.
  apply (inj (String.app dir)) in H. by apply (inj (String.app "\")) in H.
Qed.

Lemma runtime_is_not_archive tmpPath :
  path_join [tmpPath; "exportednw"] <> path_join [tmpPath; "update.zip"].
Proof. intros H. by apply path_join_last_inj in H. Qed.

Lemma running_values_num n chunks :
  running_values (JNum n) chunks = JNum <$> running_sizes n chunks.
Proof.
  revert n. induction chunks as [|d rest IH]; intros n; cbn; [done|].
  by rewrite IH.
Qed.

Lemma request_data_run piped updatePath chunks w :
  request_data piped updatePath chunks w =
  ({| files := if piped
               then foldl (fun fs d => append_to updatePath d fs) (files w) chunks
               else files w;
      deferred := deferred w;
      notified := notified w ++
                  match deferred w with
                  | Pending => ReceivedSize <$> running_values (receivedSize w) chunks
                  | _ => []
                  end;
      trace := trace w;
      totalSize := totalSize w;
      receivedSize := foldl (fun r d => js_add_num r (N.of_nat (length d)))
                            (receivedSize w) chunks |}, inr tt).
Proof.
  revert w. induction chunks as [|d rest IH]; intros [fs df ns tr ts rs].
  - destruct piped, df; cbn; by rewrite app_nil_r.
  - cbn [request_data]. unfold mbind, cb_bind. cbn.
    destruct piped; cbn; rewrite IH; cbn; destruct df; cbn;
      by rewrite <- ?app_assoc, ?app_nil_r.
Qed.

Lemma foldl_append_to path chunks (fs : gmap string (list byte)) c :
  fs !! path = Some c ->
  foldl (fun fs d => append_to path d fs) fs chunks = <[path := c ++ concat chunks]> fs.
Proof.
  revert fs c. induction chunks as [|d rest IH]; intros fs c Hc; cbn.
  - rewrite app_nil_r. by rewrite insert_id.
  - unfold append_to at 2. rewrite Hc. cbn.
    rewrite (IH _ (c ++ d)) by by rewrite lookup_insert_eq.
    by rewrite insert_insert_eq, <- app_assoc.
Qed.

(** *** Paths *)

Lemma string_app_cons (x : ascii) (a b : string) :
  String x a +:+ b = String x (a +:+ b).
Proof. reflexivity. Qed.

Lemma string_app_assoc (a b c : string) : (a +:+ b) +:+ c = a +:+ (b +:+ c).
Proof.
  induction a as [|x a IH]; [done|]. rewrite !string_app_cons. by rewrite IH.
Qed.

Lemma string_app_length (a b : string) :
  String.length (a +:+ b) = String.length a + String.length b.
Proof.
  induction a as [|x a IH]; [done|]. rewrite string_app_cons. cbn. by rewrite IH.
Qed.

Lemma dirname_aux_child a name :
  dirname_aux name = None -> dirname_aux (a +:+ String "\" name) = Some a.
Proof.
  intros Hname. induction a as [|x a IH].
  - change (dirname_aux (String "\" name) = Some ""). cbn. by rewrite Hname.
  - rewrite string_app_cons. cbn. by rewrite IH.
Qed.

(** The staged executable is not one of the scratch files. *)
Lemma staged_not_in_scratch dir ts name :
  path_join [dir; "update.exe"] <> path_join [path_join [dir; "tmp"; ts]; name].
Proof.
  unfold path_join; cbn. rewrite !string_app_assoc. intros H.
  apply (inj (String.app dir)) in H. cbv [String.append] in H. discriminate.
Qed.

(** Nor is the running executable. *)
Lemma exec_not_in_scratch execPath ts name :
  dirname_aux name = None ->
  execPath <> path_join [path_join [path_dirname execPath; "tmp"; ts]; name].
Proof.
  intros Hname E. unfold path_join in E; cbn in E.
  set (T := (path_dirname execPath +:+ "\" +:+ "tmp") +:+ "\" +:+ ts) in *.
  assert (Hdir : dirname_aux execPath = Some T).
  { rewrite E at 1. by apply dirname_aux_child. }
  assert (HT : String.length T = String.length (path_dirname execPath) + 5 + String.length ts).
  { subst T. rewrite !string_app_length. cbn. lia. }
  unfold path_dirname in HT. rewrite Hdir in HT.
  destruct T as [|c T']; cbn in HT; lia.
Qed.

(** One case split on what the environment answers next. *)
Ltac dl_step env :=
  match goal with
  | |- context [request_data _ _ _ _] => rewrite request_data_run
  | |- context [mkdirp_err env] => destruct (mkdirp_err env) eqn:?
  | |- context [disk env !! ?p] => destruct (disk env !! p) eqn:?
  | |- context [runtime_write_err env] => destruct (runtime_write_err env) eqn:?
  | |- context [download env] => destruct (download env) as [?|? ? ? [?|]] eqn:?
  | |- context [bool_decide (?s ≠ 200%Z)] => destruct (bool_decide_reflect (s ≠ 200%Z))
  | |- context [zip_write_err env] => destruct (zip_write_err env) eqn:?
  | |- context [merge_write_err env] => destruct (merge_write_err env) eqn:?
  | |- context [unlink_err env] => destruct (unlink_err env) eqn:?
  | |- context [rename_answers_first env] => destruct (rename_answers_first env) eqn:?
  | |- context [rename_err env] => destruct (rename_err env) eqn:?
  | |- context [match ?m !! ?k with _ => _ end] => destruct (m !! k) eqn:?
  end; run_cb.

Ltac dl_unfold :=
  unfold downloadUpdate, mkdirp_done, runtime_finished, request_response, request_end,
    merge_finished, renamed, unlinked, extraction_calls, runtime_path, zip_path, tmp_path,
    staged_path.

Ltac dl_paths env :=
  set (tmpPath := path_join [path_dirname (process_execPath env); "tmp";
                             pretty (Date_now env)]) in *;
  pose proof (runtime_is_not_archive tmpPath) as Hne;
  pose proof (staged_not_in_scratch (path_dirname (process_execPath env))
                (pretty (Date_now env)) "update.zip") as Hstaged;
  pose proof (staged_not_in_scratch (path_dirname (process_execPath env))
                (pretty (Date_now env)) "exportednw") as Hstaged';
  fold tmpPath in Hstaged, Hstaged';
  set (runtimePath := path_join [tmpPath; "exportednw"]) in *;
  set (updatePath := path_join [tmpPath; "update.zip"]) in *;
  set (newExecPath := path_join [path_dirname (process_execPath env); "update.exe"]) in *;
  clearbody runtimePath updatePath tmpPath newExecPath.

(** What a run that fulfils its promise has done. *)
Lemma downloadUpdate_fulfilled self env updateLocation p :
  deferred (downloadUpdate self env updateLocation).1 = Fulfilled p ->
  exists exe content_length chunks,
    isDevMode self = false /\
    disk env !! process_execPath env = Some exe /\
    download env = HttpResponse 200 content_length chunks None /\
    p = staged_path env /\
    files (downloadUpdate self env updateLocation).1 !! p =
      Some (read_range 0 (runtimesize self) exe ++ concat chunks) /\
    notified (downloadUpdate self env updateLocation).1 =
      TotalSize (header_value content_length) ::
      ((fun n => ReceivedSize (JNum n)) <$> running_sizes 0 chunks).
Proof.
  dl_unfold.
  destruct (isDevMode self); [done|].
  dl_paths env. run_cb.
  destruct (mkdirp_err env) as [e|]; [done|]. run_cb.
  destruct (disk env !! process_execPath env) as [exe|] eqn:Hexe; [|done].
  destruct (runtime_write_err env) as [e|]; [done|]. run_cb.
  destruct (download env) as [e|status cl chunks late]; [done|]. run_cb.
  destruct (bool_decide_reflect (status ≠ 200%Z)) as [Hst|Hst]; run_cb.
  { rewrite request_data_run. cbn.
    destruct late; run_cb; repeat dl_step env; done. }
  assert (status = 200%Z) as -> by (destruct (decide (status = 200%Z)); done).
  destruct (zip_write_err env) as [e|]; [done|]. run_cb.
  rewrite request_data_run. cbn.
  destruct late as [e|]; run_cb.
  { repeat dl_step env; done. }
  rewrite (foldl_append_to updatePath chunks _ []) by by rewrite lookup_insert_eq.
  rewrite lookup_insert_eq. cbn.
  destruct (merge_write_err env) as [e|]; [done|]. run_cb.
  assert (Hmerged :
    append_to runtimePath (concat chunks)
      (<[updatePath:=concat chunks]>
         (<[updatePath:=[]]>
            (<[runtimePath:=read_range 0 (runtimesize self) exe]> (disk env))))
    !! runtimePath = Some (read_range 0 (runtimesize self) exe ++ concat chunks)).
  { unfold append_to.
    by rewrite lookup_insert_eq, !(lookup_insert_ne _ updatePath runtimePath),
      lookup_insert_eq by done. }
  destruct (rename_answers_first env); run_cb.
  - destruct (rename_err env) as [e|]; run_cb.
    { by destruct (unlink_err env). }
    rewrite Hmerged. cbn.
    destruct (unlink_err env) as [e|]; run_cb.
    + intros [= <-]. exists exe, cl, chunks.
      rewrite lookup_insert_eq, running_values_num, <- list_fmap_compose. done.
    + intros [= <-]. exists exe, cl, chunks.
      rewrite lookup_delete_ne, lookup_insert_eq by done.
      rewrite running_values_num, <- list_fmap_compose. done.
  - destruct (unlink_err env) as [e|]; run_cb.
    { destruct (rename_err env); run_cb; [done|]. by destruct (_ !! runtimePath). }
    destruct (rename_err env) as [e|]; run_cb; [done|].
    rewrite lookup_delete_ne, Hmerged by done. cbn.
    intros [= <-]. exists exe, cl, chunks.
    rewrite lookup_insert_eq, running_values_num, <- list_fmap_compose. done.
Qed.

(** C9. In development mode [downloadUpdate] returns a promise already
    rejected with the abort message and does nothing else: no stream,
    directory, request, unlink or rename appears in the trace, the files
    are the ones on disk, and no progress is notified. *)
Theorem downloadUpdate_dev_mode (manifest : Manifest) (env : Env) (updateLocation : string) :
  nwup_mode manifest = Some "DEVEL" ->
  let run := downloadUpdate (nwup_new manifest) env updateLocation in
  deferred run.1 = Rejected "Update aborted in development environment" /\
  trace run.1 = [] /\
  files run.1 = disk env /\
  notified run.1 = [] /\
  run.2 = inr tt.
Proof.
  intros Hmode run. subst run. unfold downloadUpdate, nwup_new. cbn.
  by rewrite Hmode.
Qed.

Lemma downloadUpdate_dev_mode_witness :
  let run :=
    downloadUpdate
      (nwup_new {| version := "1.0.0"; nwup_updateManifest := "http://x/latest.json";
                   nwup_runtimesize := 1000; nwup_mode := Some "DEVEL" |})
      download_env "http://x/u.zip" in
  deferred run.1 = Rejected "Update aborted in development environment" /\
  trace run.1 = [] /\
  files run.1 = disk download_env /\
  notified run.1 = [] /\
  run.2 = inr tt.
Proof.
  apply (downloadUpdate_dev_mode
           {| version := "1.0.0"; nwup_updateManifest := "http://x/latest.json";
              nwup_runtimesize := 1000; nwup_mode := Some "DEVEL" |}
           download_env "http://x/u.zip").
  reflexivity.
Defined.

(** The staged executable of a fulfilled run: the bytes of the running
    executable from offset 0 to offset [runtimesize] included, then the
    archive as received, whatever the chunking.  On an executable longer
    than the runtime that is [runtimesize + 1] bytes and the archive. *)
Lemma downloadUpdate_staged_bytes self env updateLocation p :
  deferred (downloadUpdate self env updateLocation).1 = Fulfilled p ->
  exists exe content_length chunks,
    disk env !! process_execPath env = Some exe /\
    download env = HttpResponse 200 content_length chunks None /\
    files (downloadUpdate self env updateLocation).1 !! p =
      Some (take (N.to_nat (runtimesize self) + 1) exe ++ concat chunks) /\
    (N.to_nat (runtimesize self) < length exe ->
     length (take (N.to_nat (runtimesize self) + 1) exe ++ concat chunks) =
     N.to_nat (runtimesize self) + 1 + length (concat chunks)).
Proof.
  intros H. apply downloadUpdate_fulfilled in H
    as (exe & cl & chunks & _ & Hexe & Hdl & _ & Hfile & _).
  exists exe, cl, chunks. split; [done|split; [done|split]].
  - rewrite Hfile. unfold read_range. rewrite drop_0.
    by replace (N.to_nat (runtimesize self - 0 + 1))
      with (N.to_nat (runtimesize self) + 1) by lia.
  - intros Hlong. rewrite length_app, length_take. lia.
Qed.

(** C1, on the code: with a runtime of 1,000 bytes and an archive of
    2,000 bytes the run succeeds and stages 3,001 bytes: the runtime,
    the first byte of the archive the running executable carries, and
    the new archive. *)
Theorem downloadUpdate_stages_one_byte_more :
  let w := (downloadUpdate packaged_app download_env "http://x/u.zip").1 in
  deferred w = Fulfilled "C:\app\update.exe" /\
  files w !! "C:\app\update.exe" =
    Some (runtime_1000 ++ [x50] ++ payload_2000) /\
  length (runtime_1000 ++ [x50] ++ payload_2000) = 3001.
Proof. vm_compute. done. Qed.

(** ** Progress *)

Lemma received_values_run v ns :
  received_values (TotalSize v :: ((fun n => ReceivedSize (JNum n)) <$> ns)) = JNum <$> ns.
Proof.
  unfold received_values. cbn. induction ns as [|n ns IH]; cbn; [done|by rewrite IH].
Qed.

Lemma running_sizes_nondecreasing acc chunks :
  nondecreasing (JNum <$> running_sizes acc chunks) = true.
Proof.
  revert acc. induction chunks as [|d rest IH]; intros acc; [done|].
  cbn [running_sizes fmap list_fmap]. specialize (IH (acc + N.of_nat (length d))%N).
  destruct rest as [|d' rest']; [done|].
  cbn [running_sizes fmap list_fmap nondecreasing] in *.
  rewrite IH, andb_true_r. cbn. apply N.leb_le. lia.
Qed.

Lemma running_sizes_last acc chunks :
  chunks <> [] ->
  last (running_sizes acc chunks) = Some (acc + N.of_nat (length (concat chunks)))%N.
Proof.
  revert acc. induction chunks as [|d rest IH]; intros acc Hne; [done|].
  cbn [running_sizes concat]. destruct rest as [|d' rest'].
  - cbn. rewrite app_nil_r. done.
  - rewrite last_cons, IH by done. cbn [running_sizes].
    f_equal. rewrite !length_app. cbn [concat]. rewrite length_app. lia.
Qed.

(** C6, as the code has it.  In a fulfilled run the first notification
    carries the [content-length] header as received (or [undefined]),
    the [receivedSize] values are the byte counts after each chunk and
    never decrease, and the last one is the size of the archive; it
    equals the announced total when the header reads as that size. *)
Theorem downloadUpdate_progress self env updateLocation p :
  deferred (downloadUpdate self env updateLocation).1 = Fulfilled p ->
  let ps := notified (downloadUpdate self env updateLocation).1 in
  exists content_length chunks,
    download env = HttpResponse 200 content_length chunks None /\
    announced_total ps = Some (header_value content_length) /\
    received_values ps = JNum <$> running_sizes 0 chunks /\
    nondecreasing (received_values ps) = true /\
    (chunks <> [] ->
     final_received ps = Some (JNum (N.of_nat (length (concat chunks))))) /\
    (forall s, chunks <> [] -> content_length = Some s ->
               parse_decimal s = Some (N.of_nat (length (concat chunks))) ->
               final_matches_total ps).
Proof.
  intros H ps. subst ps. apply downloadUpdate_fulfilled in H
    as (exe & cl & chunks & _ & _ & Hdl & _ & _ & Hnote).
  exists cl, chunks. rewrite Hnote, received_values_run.
  assert (Hlast : chunks <> [] ->
    final_received (TotalSize (header_value cl) ::
                    ((fun n => ReceivedSize (JNum n)) <$> running_sizes 0 chunks)) =
    Some (JNum (N.of_nat (length (concat chunks))))).
  { intros Hne. unfold final_received. rewrite received_values_run, fmap_last.
    by rewrite running_sizes_last. }
  split; [done|]. split; [done|]. split; [done|].
  split; [apply running_sizes_nondecreasing|]. split; [done|].
  intros s Hne -> Hparse.
  exists (JStr s), (JNum (N.of_nat (length (concat chunks)))).
  split; [done|]. split; [by apply Hlast|]. cbn. rewrite Hparse. apply N.eqb_refl.
Qed.

Lemma downloadUpdate_progress_witness :
  let ps := notified (downloadUpdate packaged_app download_env "http://x/u.zip").1 in
  exists content_length chunks,
    download download_env = HttpResponse 200 content_length chunks None /\
    announced_total ps = Some (header_value content_length) /\
    received_values ps = JNum <$> running_sizes 0 chunks /\
    nondecreasing (received_values ps) = true /\
    (chunks <> [] ->
     final_received ps = Some (JNum (N.of_nat (length (concat chunks))))) /\
    (forall s, chunks <> [] -> content_length = Some s ->
               parse_decimal s = Some (N.of_nat (length (concat chunks))) ->
               final_matches_total ps).
Proof.
  apply (downloadUpdate_progress packaged_app download_env "http://x/u.zip"
           "C:\app\update.exe").
  vm_compute. reflexivity.
Defined.

(** C6, as stated, fails when the server sends no [content-length]:
    the run is fulfilled, [totalSize] is announced as [undefined], and
    the last [receivedSize] is 2000. *)
Lemma final_receivedSize_differs_from_totalSize :
  let w := (downloadUpdate packaged_app chunked_env "http://x/u.zip").1 in
  deferred w = Fulfilled "C:\app\update.exe" /\
  notified w = [TotalSize JUndefined; ReceivedSize (JNum 700);
                ReceivedSize (JNum 1400); ReceivedSize (JNum 2000)] /\
  ~ final_matches_total (notified w).
Proof.
  assert (Hnote : notified (downloadUpdate packaged_app chunked_env "http://x/u.zip").1 =
                  [TotalSize JUndefined; ReceivedSize (JNum 700);
                   ReceivedSize (JNum 1400); ReceivedSize (JNum 2000)])
    by (vm_compute; reflexivity).
  split; [vm_compute; reflexivity|]. split; [exact Hnote|].
  rewrite Hnote. intros (total & final & Ht & Hf & Heq).
  cbn in Ht, Hf. injection Ht as <-. injection Hf as <-. discriminate.
Qed.

(** * Further properties *)

(** ** PersistentState *)

Lemma fold_insert_lookup key data (m : gmap string string) :
  fold_left (fun (o : gmap string string) kv => <[kv.1 := kv.2]> o) data m !! key =
  match last_value key data with
  | Some v => Some v
  | None => m !! key
  end.
Proof.
  revert m. induction data as [|[k v] rest IH]; intros m; cbn; [done|].
  rewrite IH. destruct (last_value key rest); [done|].
  destruct (String.eqb_spec k key) as [->|Hne].
  - by rewrite lookup_insert_eq.
  - by rewrite lookup_insert_ne.
Qed.

(** X1. For the two fields the module keeps, [mode] and [execPath]:
    after [storeData] of entries for these fields, each of them reads
    as the last value listed for it, and as before when it is not
    listed ([undefined] when there was no blob); the blob exists
    afterwards. *)
Theorem storeData_then_getData (key : string) (data : list (string * string))
    (ls : storage) :
  module_key key ->
  Forall (fun kv => module_key kv.1) data ->
  getData key (storeData data ls) =
    match last_value key data with
    | Some v => JStr v
    | None => match ls with Some _ => getData key ls | None => JUndefined end
    end /\
  storeData data ls <> None.
Proof.
  intros _ _. split; [|done]. unfold getData, storeData. rewrite fold_insert_lookup.
  destruct (last_value key data); [done|]. by destruct ls.
Qed.

Lemma storeData_then_getData_witness :
  getData DATA_EXECPATH
    (storeData [(DATA_MODE, MODE_UPDATE); (DATA_EXECPATH, "C:\app\app.exe")]
               (Some {[ DATA_MODE := MODE_CLEAN ]})) =
    match last_value DATA_EXECPATH
            [(DATA_MODE, MODE_UPDATE); (DATA_EXECPATH, "C:\app\app.exe")] with
    | Some v => JStr v
    | None => getData DATA_EXECPATH (Some {[ DATA_MODE := MODE_CLEAN ]})
    end /\
  storeData [(DATA_MODE, MODE_UPDATE); (DATA_EXECPATH, "C:\app\app.exe")]
            (Some {[ DATA_MODE := MODE_CLEAN ]}) <> None.
Proof.
  apply (storeData_then_getData DATA_EXECPATH
           [(DATA_MODE, MODE_UPDATE); (DATA_EXECPATH, "C:\app\app.exe")]
           (Some {[ DATA_MODE := MODE_CLEAN ]})).
  - right. reflexivity.
  - apply Forall_cons; split; [left; reflexivity|].
    apply Forall_cons; split; [right; reflexivity|]. apply Forall_nil_2.
Defined.

(** X2. For the two fields the module keeps: [removeData] of one of
    them makes it read as absent ([undefined], or [null] when there is
    no blob) and leaves the other reading as before; a missing blob
    stays missing and an existing one stays (possibly empty), and
    removing twice is removing once. *)
Theorem removeData_then_getData (key key' : string) (ls : storage) :
  module_key key -> module_key key' ->
  getData key' (removeData key ls) =
    (if String.eqb key key'
     then match ls with Some _ => JUndefined | None => JNull end
     else getData key' ls) /\
  (removeData key ls = None <-> ls = None) /\
  removeData key (removeData key ls) = removeData key ls.
Proof.
  intros _ _. split; [|split].
  - destruct (String.eqb_spec key key') as [->|Hne].
    + apply getData_removeData_same.
    + by apply getData_removeData_other.
  - by destruct ls.
  - destruct ls as [m|]; cbn; [|done]. by rewrite delete_delete_eq.
Qed.

Lemma removeData_then_getData_witness :
  let ls := Some ({[ "mode" := "UPDATE"; "execPath" := "C:\app\app.exe" ]}
                  : gmap string string) in
  getData DATA_MODE (removeData DATA_EXECPATH ls) =
    (if String.eqb DATA_EXECPATH DATA_MODE then JUndefined else getData DATA_MODE ls) /\
  (removeData DATA_EXECPATH ls = None <-> ls = None) /\
  removeData DATA_EXECPATH (removeData DATA_EXECPATH ls) = removeData DATA_EXECPATH ls.
Proof.
  apply (removeData_then_getData DATA_EXECPATH DATA_MODE
           (Some {[ "mode" := "UPDATE"; "execPath" := "C:\app\app.exe" ]})).
  - right. reflexivity.
  - left. reflexivity.
Defined.

(** ** LifecycleCoordinator *)

(** X3. [isUpdating] and [needsCleaning] never hold together, and both
    are false when nothing was ever stored. *)
Theorem phases_exclusive (ls : storage) :
  isUpdating ls && needsCleaning ls = false /\
  isUpdating None = false /\ needsCleaning None = false.
Proof.
  split; [|done]. unfold isUpdating, needsCleaning.
  destruct (getData_cases DATA_MODE ls) as [-> | [-> | [s ->]]]; try done.
  cbn. by destruct (String.eqb_spec s MODE_UPDATE) as [->|].
Qed.

(** X4. [applyUpdate] on the empty path stores nothing and launches
    nothing.  On any other path it writes update mode and the path of
    the running executable over whatever record was there, keeps every
    other field, launches exactly the path it was given, and a second
    call changes the store no further. *)
Theorem applyUpdate_effect (execPath updatePath : string) (ls : storage) :
  applyUpdate execPath "" ls = Outcome ls [] None /\
  (updatePath <> "" ->
   let o := applyUpdate execPath updatePath ls in
   getData DATA_MODE (store o) = JStr MODE_UPDATE /\
   getData DATA_EXECPATH (store o) = JStr execPath /\
   (forall key, key <> DATA_MODE -> key <> DATA_EXECPATH ->
      getData key (store o) =
      match ls with Some _ => getData key ls | None => JUndefined end) /\
   effects o = [ESpawnDetached updatePath; EUnref; EHideWindow; EAppQuit] /\
   thrown o = None /\
   store (applyUpdate execPath updatePath (store o)) = store o).
Proof.
  split; [done|]. intros Hne o. subst o. rewrite !applyUpdate_store by done.
  cbn [store effects thrown].
  split; [|split; [|split; [|split; [done|split; [done|]]]]].
  - cbn. by rewrite lookup_insert_ne, lookup_insert_eq.
  - cbn. by rewrite lookup_insert_eq.
  - intros key H1 H2. cbn. rewrite !lookup_insert_ne by done.
    destruct ls; [done|]. by rewrite lookup_empty.
  - unfold storeData. cbn [fold_left fst snd]. f_equal. apply map_eq. intros k.
    rewrite !lookup_insert. repeat case_decide; done.
Qed.

Lemma applyUpdate_effect_witness :
  let o := applyUpdate "C:\app\app.exe" "C:\app\update.exe"
             (Some {[ "theme" := "dark"; "mode" := "CLEAN" ]}) in
  getData DATA_MODE (store o) = JStr MODE_UPDATE /\
  getData DATA_EXECPATH (store o) = JStr "C:\app\app.exe" /\
  (forall key, key <> DATA_MODE -> key <> DATA_EXECPATH ->
     getData key (store o) =
     getData key (Some {[ "theme" := "dark"; "mode" := "CLEAN" ]})) /\
  effects o = [ESpawnDetached "C:\app\update.exe"; EUnref; EHideWindow; EAppQuit] /\
  thrown o = None /\
  store (applyUpdate "C:\app\app.exe" "C:\app\update.exe" (store o)) = store o.
Proof.
  apply (proj2 (applyUpdate_effect "C:\app\app.exe" "C:\app\update.exe"
                  (Some {[ "theme" := "dark"; "mode" := "CLEAN" ]}))).
  discriminate.
Defined.



(** X6. [completeUpdate] launches nothing but the saved path, and only
    once the copy onto it has finished, with clean mode stored; it arms
    its timer only after a write error, with the store untouched. *)
Theorem completeUpdate_launches_only_saved_path (execPath : string) (io : copy_result)
    (ls : storage) :
  let o := completeUpdate execPath io ls in
  (forall p, In (ESpawnDetached p) (effects o) ->
     io = CopyFinish /\ getData DATA_EXECPATH ls = JStr p /\ p <> "" /\ p <> execPath /\
     needsCleaning (store o) = true) /\
  (rearmed o = true -> (exists err, io = CopyWriteError err) /\ store o = ls).
Proof.
  intros o. subst o.
  destruct (completeUpdate_outcomes execPath io ls)
    as [-> | [(_ & _ & ->) | (old & Hget & Hne1 & Hne2 & ->)]]; cbn [effects store].
  - split; [by intros p []|done].
  - split; [by intros p []|done].
  - destruct io as [|err|err]; cbn [effects store].
    + split; [|cbn; done]. intros p Hin.
      assert (p = old) as ->.
      { cbn in Hin. destruct Hin as [H|[H|[H|[H|H]]]]; try discriminate; [congruence|].
        destruct H as [H|[H|[H|H]]]; try discriminate; done. }
      repeat split; try done.
      pose proof (completeUpdate_finish_phase execPath ls old Hget Hne1 Hne2) as [Hm _].
      rewrite (completeUpdate_copy _ _ _ old) in Hm by done. cbn [store] in Hm.
      unfold needsCleaning. by rewrite Hm.
    + split; [|eauto]. intros p Hin. cbn in Hin.
      destruct Hin as [H|[H|[H|[H|H]]]]; try discriminate; done.
    + split; [|cbn; done]. intros p Hin. cbn in Hin.
      destruct Hin as [H|[H|[H|H]]]; try discriminate; done.
Qed.

Lemma completeUpdate_launches_only_saved_path_witness :
  let ls := Some ({[ "mode" := "UPDATE"; "execPath" := "C:\app\app.exe" ]} : gmap string string) in
  let o := completeUpdate "C:\app\update.exe" CopyFinish ls in
  In (ESpawnDetached "C:\app\app.exe") (effects o) /\
  getData DATA_EXECPATH ls = JStr "C:\app\app.exe" /\
  needsCleaning (store o) = true.
Proof.
  assert (Hin : In (ESpawnDetached "C:\app\app.exe")
            (effects (completeUpdate "C:\app\update.exe" CopyFinish
               (Some {[ "mode" := "UPDATE"; "execPath" := "C:\app\app.exe" ]})))).
  { vm_compute. right; right; right; left. reflexivity. }
  split; [exact Hin|].
  destruct (proj1 (completeUpdate_launches_only_saved_path "C:\app\update.exe" CopyFinish
                     (Some {[ "mode" := "UPDATE"; "execPath" := "C:\app\app.exe" ]}))
                  "C:\app\app.exe" Hin) as (_ & Hget & _ & _ & Hclean).
  split; [exact Hget|exact Hclean].
Defined.

Lemma completeUpdate_returns_at_once execPath io ls :
  (forall p, getData DATA_EXECPATH ls <> JStr p) ->
  completeUpdate execPath io ls = Outcome ls [] None.
Proof.
  intros Hnone.
  destruct (completeUpdate_outcomes execPath io ls)
    as [E | [(Hget & _) | (old & Hget & _)]]; [done| |]; by destruct (Hnone _ Hget).
Qed.

(** X7. Once a [completeUpdate] has changed the store (the copy
    finished, or the self-target guard cleared the record), any further
    [completeUpdate], from whichever executable and however its copy
    would go, returns at once: no stream, no launch, no change. *)
Theorem completeUpdate_then_noop (execPath execPath' : string) (io io' : copy_result)
    (ls : storage) :
  store (completeUpdate execPath io ls) <> ls ->
  completeUpdate execPath' io' (store (completeUpdate execPath io ls)) =
  Outcome (store (completeUpdate execPath io ls)) [] None.
Proof.
  intros Hchanged. apply completeUpdate_returns_at_once.
  intros p Hp.
  destruct (completeUpdate_cases execPath io ls) as [E | [[_ E] | [_ E]]]; [done| |].
  - rewrite E in Hp. by apply getData_execPath_after_clear in Hp.
  - rewrite E, getData_storeData_other in Hp by done.
    destruct (removeData DATA_EXECPATH ls) eqn:R; [|done].
    rewrite <- R in Hp. by apply getData_execPath_after_clear in Hp.
Qed.

Lemma completeUpdate_then_noop_witness :
  let ls := Some ({[ "mode" := "UPDATE"; "execPath" := "C:\app\app.exe" ]} : gmap string string) in
  let ls' := store (completeUpdate "C:\app\update.exe" CopyFinish ls) in
  ls' <> ls /\
  completeUpdate "C:\app\update.exe" (CopyWriteError "EBUSY") ls' = Outcome ls' [] None.
Proof.
  assert (Hchanged :
    store (completeUpdate "C:\app\update.exe" CopyFinish
             (Some {[ "mode" := "UPDATE"; "execPath" := "C:\app\app.exe" ]})) <>
    Some {[ "mode" := "UPDATE"; "execPath" := "C:\app\app.exe" ]}).
  { intros H. apply (f_equal (getData "mode")) in H. vm_compute in H. discriminate. }
  split; [exact Hchanged|].
  exact (completeUpdate_then_noop "C:\app\update.exe" "C:\app\update.exe" CopyFinish
           (CopyWriteError "EBUSY") _ Hchanged).
Defined.

(** X8. [clean] clears the mode whether or not the deletion worked: with
    an error from [rimraf] the promise is rejected with it, otherwise it
    is fulfilled, and in both cases neither phase predicate holds
    afterwards.  The saved path is left as it was, the blob itself is
    never removed, nothing is thrown, and cleaning again changes
    nothing. *)
Theorem clean_effect (execPath execPath' : string) (err err' : option string)
    (ls : storage) :
  let r := clean execPath err ls in
  r.2 = match err with Some e => Rejected e | None => Fulfilled tt end /\
  store r.1 = removeData DATA_MODE ls /\
  isUpdating (store r.1) = false /\
  needsCleaning (store r.1) = false /\
  getData DATA_EXECPATH (store r.1) = getData DATA_EXECPATH ls /\
  (store r.1 = None <-> ls = None) /\
  thrown r.1 = None /\
  store (clean execPath' err' (store r.1)).1 = store r.1.
Proof.
  intros r. subst r. rewrite !clean_store.
  split; [by destruct err|]. split; [done|].
  assert (Hmode : getData DATA_MODE (removeData DATA_MODE ls) = JNull \/
                  getData DATA_MODE (removeData DATA_MODE ls) = JUndefined).
  { rewrite getData_removeData_same. destruct ls; auto. }
  destruct (no_mode_no_phase _ Hmode) as [-> ->].
  split; [done|]. split; [done|].
  split; [by apply getData_removeData_other|].
  split; [by destruct ls|]. split; [done|].
  destruct ls as [m|]; cbn; [|done]. by rewrite delete_delete_eq.
Qed.

(** X9. One whole cycle, [applyUpdate], a [completeUpdate] whose copy
    finishes, then [clean], gives back the blob it started from without
    the fields [mode] and [execPath]: every other field survives, and a
    fresh storage ends as the empty object. *)
Theorem lifecycle_round_trip (ls : storage) (origPath stagedPath : string)
    (rimraf_err : option string) :
  stagedPath <> "" -> origPath <> "" -> origPath <> stagedPath ->
  store (clean origPath rimraf_err
           (store (completeUpdate stagedPath CopyFinish
                     (store (applyUpdate origPath stagedPath ls))))).1 =
  Some (delete DATA_MODE (delete DATA_EXECPATH (default ∅ ls))).
Proof.
  intros Hs Ho Hne.
  destruct (applyUpdate_persists origPath stagedPath ls Hs) as [_ Hp].
  rewrite clean_store, (completeUpdate_copy _ _ _ origPath) by done.
  rewrite applyUpdate_store by done.
  unfold storeData, removeData. cbn [store fold_left fst snd]. f_equal.
  apply map_eq. intros k.
  rewrite !lookup_delete, !lookup_insert, !lookup_delete, !lookup_insert.
  destruct ls as [m|]; cbn [default]; repeat case_decide; try done.
Qed.

Lemma lifecycle_round_trip_witness :
  store (clean "C:\app\app.exe" None
           (store (completeUpdate "C:\app\update.exe" CopyFinish
                     (store (applyUpdate "C:\app\app.exe" "C:\app\update.exe"
                               (Some {[ "theme" := "dark" ]})))))).1 =
  Some (delete DATA_MODE (delete DATA_EXECPATH (default ∅ (Some {[ "theme" := "dark" ]})))).
Proof.
  apply (lifecycle_round_trip (Some {[ "theme" := "dark" ]})
           "C:\app\app.exe" "C:\app\update.exe" None); discriminate.
Defined.







(** ** VersionOracle *)

Section VersionOracleMore.

Variable JSON_parse : string -> option json.
Variable semver_parse : string -> option Semver.SemVer.

(** X12. [checkForUpdate] fulfils its promise only on a response with
    status 200 whose body parses to an object with a string [version]
    that is a valid version, the current version being valid too; the
    value then carries the parsed manifest whole and the verdict of the
    comparison, and nothing was thrown.  No fetch error, other status or
    malformed manifest ever yields a fulfilled promise. *)
Theorem checkForUpdate_fulfilled_only_if (self : nwup) (o : request_outcome)
    (u : UpdateCheck) :
  (checkForUpdate JSON_parse semver_parse self o).1 = Fulfilled u ->
  exists body fields remote a b,
    o = ReqDone {| statusCode := 200 |} body /\
    JSON_parse body = Some (JsonObject fields) /\
    json_field "version" fields = Some (JsonString remote) /\
    semver_parse (currentVersion self) = Some a /\
    semver_parse remote = Some b /\
    updateInformation u = JsonObject fields /\
    updateAvailable u = match Semver.compare a b with Lt => true | _ => false end /\
    (checkForUpdate JSON_parse semver_parse self o).2 = inr tt.
Proof.
  destruct o as [err|[status] body]; [done|].
  unfold checkForUpdate, checkForUpdate_callback, manifest_version, semver_lt,
    rejecting, resolving.
  run_cb.
  destruct (bool_decide_reflect (status ≠ 200%Z)) as [Hst|Hst]; run_cb.
  { by rewrite bool_decide_false by done. }
  assert (status = 200%Z) as -> by (destruct (decide (status = 200%Z)); done).
  cbn.
  destruct (JSON_parse body) as [m|] eqn:Hbody; [|done].
  destruct m as [|bb|lit|ss|items|fields]; run_cb; try done.
  all: rewrite ?bool_decide_true by done.
  all: try (by destruct (semver_parse (currentVersion self))).
  destruct (semver_parse (currentVersion self)) as [a|] eqn:Ha; [|done].
  destruct (json_field "version" fields) as [v|] eqn:Hv; [|done].
  destruct v as [|bb|lit|remote|items|ff]; try done.
  destruct (semver_parse remote) as [b|] eqn:Hb; [|done]. run_cb.
  intros [= <-]. exists body, fields, remote, a, b. cbn.
  repeat split; try done. by destruct (Semver.compare a b).
Qed.

(** X13. The two failures [checkForUpdate] handles both reject, once.
    A fetch error rejects with that error, after which the callback
    throws, because it goes on to read [statusCode] of a response that
    is not there.  A status other than 200 rejects with the status in
    the message, whatever the body is, and throws nothing. *)
Theorem checkForUpdate_rejections (self : nwup) :
  (forall err,
     checkForUpdate JSON_parse semver_parse self (ReqError err) =
     (Rejected err, inl "TypeError: Cannot read property 'statusCode' of undefined")) /\
  (forall status body,
     status <> 200%Z ->
     checkForUpdate JSON_parse semver_parse self (ReqDone {| statusCode := status |} body) =
     (Rejected ("Server responded with status code: " +:+ pretty status), inr tt)).
Proof.
  split.
  - intros err. apply checkForUpdate_fetch_error.
  - intros status body Hne. by apply checkForUpdate_bad_status.
Qed.

(** X14. A manifest that parses but gives no usable version leaves the
    promise pending with an uncaught [TypeError]: the body may be
    [null], a value without [version], carry a [version] that is no
    string or no valid version, or the current version may be invalid. *)
Theorem checkForUpdate_unusable_version_stays_pending (self : nwup) (body : string)
    (m : json) :
  JSON_parse body = Some m ->
  semver_parse (currentVersion self) = None \/
  (forall fields remote,
     m = JsonObject fields ->
     json_field "version" fields = Some (JsonString remote) ->
     semver_parse remote = None) ->
  exists e, checkForUpdate JSON_parse semver_parse self (ReqDone {| statusCode := 200 |} body) =
            (Pending, inl e).
Proof.
  intros Hbody Hbad.
  unfold checkForUpdate, checkForUpdate_callback, manifest_version, semver_lt,
    rejecting, resolving.
  run_cb. rewrite Hbody.
  destruct m as [|bb|lit|ss|items|fields]; run_cb;
    destruct (semver_parse (currentVersion self)) as [a|] eqn:Ha; try (by eauto).
  destruct Hbad as [Hbad|Hbad]; [done|].
  destruct (json_field "version" fields) as [v|] eqn:Hv; [|by eauto].
  destruct v as [|bb|lit|remote|items|ff]; try (by eauto).
  rewrite (Hbad fields remote eq_refl Hv). by eauto.
Qed.

End VersionOracleMore.

Lemma checkForUpdate_fulfilled_only_if_witness :
  exists body fields remote a b,
    ReqDone {| statusCode := 200 |} (manifest_body "1.1.0") =
      ReqDone {| statusCode := 200 |} body /\
    version_only_JSON_parse body = Some (JsonObject fields) /\
    json_field "version" fields = Some (JsonString remote) /\
    plain_semver_parse (currentVersion packaged_app) = Some a /\
    plain_semver_parse remote = Some b /\
    updateInformation
      {| updateAvailable := true;
         updateInformation := JsonObject [("version", JsonString "1.1.0")] |} =
      JsonObject fields /\
    updateAvailable
      {| updateAvailable := true;
         updateInformation := JsonObject [("version", JsonString "1.1.0")] |} =
      match Semver.compare a b with Lt => true | _ => false end /\
    (checkForUpdate version_only_JSON_parse plain_semver_parse packaged_app
       (ReqDone {| statusCode := 200 |} (manifest_body "1.1.0"))).2 = inr tt.
Proof.
  apply (checkForUpdate_fulfilled_only_if version_only_JSON_parse plain_semver_parse
           packaged_app (ReqDone {| statusCode := 200 |} (manifest_body "1.1.0"))
           {| updateAvailable := true;
              updateInformation := JsonObject [("version", JsonString "1.1.0")] |}).
  vm_compute. reflexivity.
Defined.

Lemma checkForUpdate_unusable_version_stays_pending_witness :
  exists e,
    checkForUpdate version_only_JSON_parse plain_semver_parse packaged_app
      (ReqDone {| statusCode := 200 |} (manifest_body "latest")) = (Pending, inl e).
Proof.
  apply (checkForUpdate_unusable_version_stays_pending
           version_only_JSON_parse plain_semver_parse packaged_app
           (manifest_body "latest") (JsonObject [("version", JsonString "latest")])).
  - vm_compute. reflexivity.
  - right. intros fields remote [= <-] [= <-]. vm_compute. reflexivity.
Defined.

Lemma checkForUpdate_rejections_witness :
  checkForUpdate version_only_JSON_parse plain_semver_parse packaged_app
    (ReqDone {| statusCode := 503 |} (manifest_body "1.1.0")) =
  (Rejected ("Server responded with status code: " +:+ pretty 503%Z), inr tt).
Proof.
  apply (proj2 (checkForUpdate_rejections version_only_JSON_parse plain_semver_parse
                  packaged_app) 503%Z (manifest_body "1.1.0")).
  discriminate.
Defined.

(** ** RuntimeMerger and DownloadTracker *)

(** Outside development mode a run starts with the extraction calls. *)
Lemma downloadUpdate_starts_extraction self env updateLocation :
  isDevMode self = false ->
  exists rest,
    trace (downloadUpdate self env updateLocation).1 = extraction_calls self env ++ rest.
Proof.
  intros Hdev. dl_unfold. rewrite Hdev.
  set (tmpPath := path_join [path_dirname (process_execPath env); "tmp";
                             pretty (Date_now env)]).
  set (runtimePath := path_join [tmpPath; "exportednw"]).
  set (updatePath := path_join [tmpPath; "update.zip"]).
  set (newExecPath := path_join [path_dirname (process_execPath env); "update.exe"]).
  clearbody runtimePath updatePath tmpPath newExecPath.
  run_cb. repeat dl_step env; eexists; reflexivity.
Qed.

(** X15. Development mode is the exact string [DEVEL] and nothing else:
    with any other [mode] in the manifest, or none, [downloadUpdate]
    goes to work, and its first calls are the read stream on the running
    executable from offset 0 to [runtimesize], [mkdirp] of the scratch
    directory [tmp\<timestamp>] beside the executable, the write stream
    on [exportednw] in it, and the pipe between the two streams. *)
Theorem downloadUpdate_outside_dev_mode (manifest : Manifest) (env : Env)
    (updateLocation : string) :
  nwup_mode manifest <> Some "DEVEL" ->
  exists rest,
    trace (downloadUpdate (nwup_new manifest) env updateLocation).1 =
    [ECreateReadRange (process_execPath env) 0 (nwup_runtimesize manifest);
     EMkdirp (path_join [path_dirname (process_execPath env); "tmp";
                         pretty (Date_now env)]);
     ECreateWriteStream (runtime_path env);
     EPipe (process_execPath env) (runtime_path env)] ++ rest.
Proof.
  intros Hmode. apply (downloadUpdate_starts_extraction (nwup_new manifest)).
  unfold nwup_new; cbn. destruct (nwup_mode manifest) as [m|]; [|done].
  apply String.eqb_neq. congruence.
Qed.

Lemma downloadUpdate_outside_dev_mode_witness :
  exists rest,
    trace (downloadUpdate
             (nwup_new {| version := "1.0.0"; nwup_updateManifest := "http://x/latest.json";
                          nwup_runtimesize := 1000; nwup_mode := Some "devel" |})
             download_env "http://x/u.zip").1 =
    [ECreateReadRange (process_execPath download_env) 0 1000;
     EMkdirp (path_join [path_dirname (process_execPath download_env); "tmp";
                         pretty (Date_now download_env)]);
     ECreateWriteStream (runtime_path download_env);
     EPipe (process_execPath download_env) (runtime_path download_env)] ++ rest.
Proof.
  apply (downloadUpdate_outside_dev_mode
           {| version := "1.0.0"; nwup_updateManifest := "http://x/latest.json";
              nwup_runtimesize := 1000; nwup_mode := Some "devel" |}
           download_env "http://x/u.zip").
  discriminate.
Defined.



(** X17. Any status other than 200 rejects with one fixed message (the
    status itself is not part of the reason), before any progress is
    notified; nothing that follows changes that, and the archive is
    never written to [update.zip]. *)
Theorem downloadUpdate_bad_status (self : nwup) (env : Env) (updateLocation : string)
    (status : Z) (content_length : option string) (chunks : list (list byte))
    (late_error : option string) :
  isDevMode self = false -> extraction_ok env = true ->
  download env = HttpResponse status content_length chunks late_error ->
  status <> 200%Z ->
  let w := (downloadUpdate self env updateLocation).1 in
  deferred w = Rejected "update file not found. server replied with code:" /\
  notified w = [] /\
  ~ In (ECreateWriteStream (zip_path env)) (trace w).
Proof.
  intros Hdev Hok Hdl Hst w. subst w. unfold extraction_ok in Hok. dl_unfold.
  rewrite Hdev, Hdl. dl_paths env. run_cb.
  destruct (mkdirp_err env); [done|].
  destruct (disk env !! process_execPath env); [|done].
  destruct (runtime_write_err env); [done|]. run_cb.
  rewrite bool_decide_true by done. run_cb. rewrite request_data_run. cbn.
  assert (Hw : ECreateWriteStream runtimePath <> ECreateWriteStream updatePath)
    by congruence.
  destruct late_error; run_cb; repeat dl_step env;
    (split; [done|split; [done|]]);
    cbn; intuition congruence.
Qed.

Lemma downloadUpdate_bad_status_witness :
  let env := serving (HttpResponse 404 (Some "9") [[x4e; x6f; x74]] None) in
  let w := (downloadUpdate packaged_app env "http://x/u.zip").1 in
  deferred w = Rejected "update file not found. server replied with code:" /\
  notified w = [] /\
  ~ In (ECreateWriteStream (zip_path env)) (trace w).
Proof.
  apply (downloadUpdate_bad_status packaged_app
           (serving (HttpResponse 404 (Some "9") [[x4e; x6f; x74]] None))
           "http://x/u.zip" 404%Z (Some "9") [[x4e; x6f; x74]] None);
    [reflexivity|reflexivity|reflexivity|discriminate].
Defined.

(** X18. An error of the request rejects with that error.  Before any
    response nothing was notified and nothing but the request follows
    the extraction.  When the connection breaks after a 200 response and
    some chunks, the notifications already made stand (the total, then
    one count per chunk); the ['end'] that the request still emits runs
    its handler all the same, which opens the read stream on
    [update.zip] and the append stream on the runtime file and pipes
    one into the other, under a promise that is already rejected. *)
Theorem downloadUpdate_request_error (self : nwup) (env : Env) (updateLocation : string) :
  isDevMode self = false -> extraction_ok env = true ->
  let w := (downloadUpdate self env updateLocation).1 in
  (forall e, download env = HttpError e ->
     deferred w = Rejected e /\ notified w = [] /\
     trace w = extraction_calls self env ++ [EHttpGet updateLocation]) /\
  (forall content_length chunks e,
     download env = HttpResponse 200 content_length chunks (Some e) ->
     zip_write_err env = None ->
     deferred w = Rejected e /\
     notified w = TotalSize (header_value content_length) ::
                  ((fun n => ReceivedSize (JNum n)) <$> running_sizes 0 chunks) /\
     exists rest,
       trace w = extraction_calls self env ++
                 [EHttpGet updateLocation; ECreateWriteStream (zip_path env);
                  ECreateReadStream (zip_path env); ECreateAppendStream (runtime_path env);
                  EPipe (zip_path env) (runtime_path env)] ++ rest).
Proof.
  intros Hdev Hok w. subst w. unfold extraction_ok in Hok. dl_unfold.
  rewrite Hdev. dl_paths env. run_cb.
  destruct (mkdirp_err env); [done|].
  destruct (disk env !! process_execPath env); [|done].
  destruct (runtime_write_err env); [done|]. run_cb.
  split.
  - intros e ->. done.
  - intros cl chunks e -> ->. run_cb.
    rewrite (bool_decide_false (200%Z ≠ 200%Z)) by (intros H; exact (H eq_refl)).
    run_cb. rewrite request_data_run. cbn.
    rewrite running_values_num, <- list_fmap_compose.
    repeat dl_step env; (split; [done|split; [done|eexists; reflexivity]]).
Qed.

Lemma downloadUpdate_request_error_witness :
  let env := serving (HttpResponse 200 (Some "2000") [repeat x51 700] (Some "ECONNRESET")) in
  let w := (downloadUpdate packaged_app env "http://x/u.zip").1 in
  deferred w = Rejected "ECONNRESET" /\
  notified w = [TotalSize (JStr "2000"); ReceivedSize (JNum 700)] /\
  exists rest,
    trace w = extraction_calls packaged_app env ++
              [EHttpGet "http://x/u.zip"; ECreateWriteStream (zip_path env);
               ECreateReadStream (zip_path env); ECreateAppendStream (runtime_path env);
               EPipe (zip_path env) (runtime_path env)] ++ rest.
Proof.
  apply (proj2 (downloadUpdate_request_error packaged_app
                  (serving (HttpResponse 200 (Some "2000") [repeat x51 700]
                              (Some "ECONNRESET")))
                  "http://x/u.zip" eq_refl eq_refl)
           (Some "2000") [repeat x51 700] "ECONNRESET" eq_refl eq_refl).
Defined.

(** X19. Failures of the merge reject with their error.  When the
    append onto the runtime file fails, neither [unlink] nor [rename] is
    called, so the archive stays in the scratch directory.  When the
    final [rename] fails the promise is rejected with that error, and the
    [resolve] that follows it in the callback has no effect. *)
Theorem downloadUpdate_merge_failure (self : nwup) (env : Env) (updateLocation : string)
    (content_length : option string) (chunks : list (list byte)) (e : string) :
  isDevMode self = false -> extraction_ok env = true ->
  download env = HttpResponse 200 content_length chunks None ->
  zip_write_err env = None ->
  let w := (downloadUpdate self env updateLocation).1 in
  (merge_write_err env = Some e ->
   deferred w = Rejected e /\
   forallb (fun c => match c with EUnlink _ | ERename _ _ => false | _ => true end)
           (trace w) = true) /\
  (merge_write_err env = None -> unlink_err env = None -> rename_err env = Some e ->
   deferred w = Rejected e).
Proof.
  intros Hdev Hok Hdl Hzip w. subst w. unfold extraction_ok in Hok. dl_unfold.
  rewrite Hdev, Hdl, Hzip. dl_paths env. run_cb.
  destruct (mkdirp_err env); [done|].
  destruct (disk env !! process_execPath env); [|done].
  destruct (runtime_write_err env); [done|]. run_cb.
  rewrite (bool_decide_false (200%Z ≠ 200%Z)) by (intros H; exact (H eq_refl)).
  run_cb. rewrite request_data_run. cbn.
  rewrite (foldl_append_to updatePath chunks _ []) by by rewrite lookup_insert_eq.
  rewrite lookup_insert_eq. cbn.
  split.
  - intros ->. done.
  - intros -> -> ->. run_cb. by destruct (rename_answers_first env).
Qed.

Lemma downloadUpdate_merge_failure_witness :
  let env := env_with {[ "C:\app\app.exe" := packaged_exe ]} None None None None None
               (Some "EPERM") (HttpResponse 200 (Some "2000") payload_chunks None) in
  deferred (downloadUpdate packaged_app env "http://x/u.zip").1 = Rejected "EPERM".
Proof.
  apply (downloadUpdate_merge_failure packaged_app
           (env_with {[ "C:\app\app.exe" := packaged_exe ]} None None None None None
              (Some "EPERM") (HttpResponse 200 (Some "2000") payload_chunks None))
           "http://x/u.zip" (Some "2000") payload_chunks "EPERM");
    vm_compute; reflexivity.
Defined.

(** The files a fulfilled run leaves. *)
Lemma downloadUpdate_fulfilled_files self env updateLocation p :
  deferred (downloadUpdate self env updateLocation).1 = Fulfilled p ->
  files (downloadUpdate self env updateLocation).1 !! runtime_path env = None /\
  (unlink_err env = None ->
   files (downloadUpdate self env updateLocation).1 !! zip_path env = None) /\
  (unlink_err env <> None ->
   is_Some (files (downloadUpdate self env updateLocation).1 !! zip_path env)) /\
  (forall q, q <> runtime_path env -> q <> zip_path env -> q <> staged_path env ->
             files (downloadUpdate self env updateLocation).1 !! q = disk env !! q).
Proof.
  dl_unfold.
  destruct (isDevMode self); [done|].
  dl_paths env. run_cb.
  destruct (mkdirp_err env) as [e|]; [done|]. run_cb.
  destruct (disk env !! process_execPath env) as [exe|] eqn:Hexe; [|done].
  destruct (runtime_write_err env) as [e|]; [done|]. run_cb.
  destruct (download env) as [e|status cl chunks late]; [done|]. run_cb.
  destruct (bool_decide_reflect (status ≠ 200%Z)) as [Hst|Hst]; run_cb.
  { rewrite request_data_run. cbn.
    destruct late; run_cb; repeat dl_step env; done. }
  destruct (zip_write_err env) as [e|]; [done|]. run_cb.
  rewrite request_data_run. cbn.
  destruct late as [e|]; run_cb.
  { repeat dl_step env; done. }
  rewrite (foldl_append_to updatePath chunks _ []) by by rewrite lookup_insert_eq.
  rewrite lookup_insert_eq. cbn.
  destruct (merge_write_err env) as [e|]; [done|]. run_cb.
  assert (Hmerged :
    append_to runtimePath (concat chunks)
      (<[updatePath:=concat chunks]>
         (<[updatePath:=[]]>
            (<[runtimePath:=read_range 0 (runtimesize self) exe]> (disk env))))
    !! runtimePath = Some (read_range 0 (runtimesize self) exe ++ concat chunks)).
  { unfold append_to.
    by rewrite lookup_insert_eq, !(lookup_insert_ne _ updatePath runtimePath),
      lookup_insert_eq by done. }
  destruct (rename_answers_first env); run_cb.
  - destruct (rename_err env) as [e|]; run_cb.
    { by destruct (unlink_err env). }
    rewrite Hmerged. cbn.
    destruct (unlink_err env) as [e|]; run_cb; intros _.
    + split; [|split; [done|split]].
      * by rewrite lookup_insert_ne, lookup_delete_eq.
      * intros _. unfold append_to.
        rewrite lookup_insert_ne, lookup_delete_ne, lookup_insert_ne,
          lookup_insert_eq by done. done.
      * intros q H1 H2 H3. unfold append_to.
        by rewrite lookup_insert_ne, lookup_delete_ne, !lookup_insert_ne by done.
    + split; [|split; [|split; [done|]]].
      * by rewrite lookup_delete_ne, lookup_insert_ne, lookup_delete_eq.
      * intros _. by rewrite lookup_delete_eq.
      * intros q H1 H2 H3. unfold append_to.
        by rewrite lookup_delete_ne, lookup_insert_ne, lookup_delete_ne,
          !lookup_insert_ne by done.
  - destruct (unlink_err env) as [e|]; run_cb.
    { destruct (rename_err env); run_cb; [done|]. by destruct (_ !! runtimePath). }
    destruct (rename_err env) as [e|]; run_cb; [done|].
    rewrite lookup_delete_ne, Hmerged by done. cbn. intros _.
    split; [|split; [|split; [done|]]].
    + by rewrite lookup_insert_ne, lookup_delete_eq.
    + intros _. by rewrite lookup_insert_ne, lookup_delete_ne, lookup_delete_eq.
    + intros q H1 H2 H3. unfold append_to.
      by rewrite lookup_insert_ne, !lookup_delete_ne, !lookup_insert_ne by done.
Qed.

(** X20. A fulfilled run touches nothing but its own files.  The
    runtime scratch file [exportednw] is gone (renamed into place);
    [update.zip] is gone when its [unlink] succeeded and still there
    when it failed, which a run can be fulfilled with, since only the
    callback of [rename] settles the promise; every file other than
    these two and the staged executable is as it was, and so is the
    running executable unless it is itself the file [update.exe] that
    the run stages. *)
Theorem downloadUpdate_frame (self : nwup) (env : Env) (updateLocation p : string) :
  deferred (downloadUpdate self env updateLocation).1 = Fulfilled p ->
  let w := (downloadUpdate self env updateLocation).1 in
  files w !! runtime_path env = None /\
  (unlink_err env = None -> files w !! zip_path env = None) /\
  (unlink_err env <> None -> is_Some (files w !! zip_path env)) /\
  (forall q, q <> runtime_path env -> q <> zip_path env -> q <> staged_path env ->
             files w !! q = disk env !! q) /\
  (process_execPath env <> staged_path env ->
   files w !! process_execPath env = disk env !! process_execPath env).
Proof.
  intros Hful w. subst w.
  destruct (downloadUpdate_fulfilled_files self env updateLocation p Hful)
    as (Hrt & Hzip & Hkept & Hother).
  assert (He1 : process_execPath env <> runtime_path env)
    by by apply exec_not_in_scratch.
  assert (He2 : process_execPath env <> zip_path env)
    by by apply exec_not_in_scratch.
  repeat split; try done. intros H3. by apply Hother.
Qed.

Lemma downloadUpdate_frame_witness :
  let w := (downloadUpdate packaged_app unlink_fails_env "http://x/u.zip").1 in
  deferred w = Fulfilled "C:\app\update.exe" /\
  files w !! runtime_path unlink_fails_env = None /\
  is_Some (files w !! zip_path unlink_fails_env) /\
  files w !! process_execPath unlink_fails_env =
    disk unlink_fails_env !! process_execPath unlink_fails_env.
Proof.
  assert (Hful : deferred (downloadUpdate packaged_app unlink_fails_env "http://x/u.zip").1 =
                 Fulfilled "C:\app\update.exe") by (vm_compute; reflexivity).
  destruct (downloadUpdate_frame packaged_app unlink_fails_env "http://x/u.zip"
              "C:\app\update.exe" Hful) as (Hrt & _ & Hkept & _ & Hexe).
  split; [exact Hful|]. split; [exact Hrt|]. split.
  - apply Hkept. discriminate.
  - apply Hexe. vm_compute. discriminate.
Defined.

(** ** How the operations fit together *)

Lemma staged_path_not_empty env : staged_path env <> "".
Proof.
  unfold staged_path, path_join; cbn.
  destruct (path_dirname (process_execPath env)); discriminate.
Qed.

(** X23. The path a fulfilled [downloadUpdate] resolves with is one
    [applyUpdate] acts on: it stores update mode with the path of the
    running executable and launches the staged file.  When the running
    executable is not itself that staged file, [completeUpdate] in the
    launched process copies the staged file over the original
    executable and, the copy finished, relaunches the original in clean
    mode. *)
Theorem staged_update_installs (self : nwup) (env : Env) (updateLocation p : string)
    (ls : storage) :
  deferred (downloadUpdate self env updateLocation).1 = Fulfilled p ->
  let orig := process_execPath env in
  let o1 := applyUpdate orig p ls in
  isUpdating (store o1) = true /\
  effects o1 = [ESpawnDetached p; EUnref; EHideWindow; EAppQuit] /\
  (orig <> "" -> orig <> p ->
   let o2 := completeUpdate p CopyFinish (store o1) in
   effects o2 = [ECreateReadStream p; ECreateWriteStream orig; EPipe p orig;
                 ESpawnDetached orig; EUnref; EHideWindow; EAppQuit] /\
   needsCleaning (store o2) = true /\
   getData DATA_EXECPATH (store o2) = JUndefined).
Proof.
  intros Hful orig o1. subst orig o1.
  assert (Hp : p <> "").
  { apply downloadUpdate_fulfilled in Hful as (_ & _ & _ & _ & _ & _ & -> & _).
    apply staged_path_not_empty. }
  destruct (applyUpdate_persists (process_execPath env) p ls Hp) as [Hm Hsaved].
  split; [unfold isUpdating; by rewrite Hm|].
  split; [by rewrite applyUpdate_store|].
  intros Ho Hne o2. subst o2.
  destruct (completeUpdate_finish_phase p _ _ Hsaved Ho Hne) as [Hm2 Hp2].
  split; [by rewrite (completeUpdate_copy _ _ _ (process_execPath env))|].
  split; [unfold needsCleaning; by rewrite Hm2|done].
Qed.

Lemma staged_update_installs_witness :
  let orig := process_execPath download_env in
  let o1 := applyUpdate orig "C:\app\update.exe" None in
  isUpdating (store o1) = true /\
  effects o1 = [ESpawnDetached "C:\app\update.exe"; EUnref; EHideWindow; EAppQuit] /\
  (orig <> "" -> orig <> "C:\app\update.exe" ->
   let o2 := completeUpdate "C:\app\update.exe" CopyFinish (store o1) in
   effects o2 = [ECreateReadStream "C:\app\update.exe"; ECreateWriteStream orig;
                 EPipe "C:\app\update.exe" orig;
                 ESpawnDetached orig; EUnref; EHideWindow; EAppQuit] /\
   needsCleaning (store o2) = true /\
   getData DATA_EXECPATH (store o2) = JUndefined).
Proof.
  apply (staged_update_installs packaged_app download_env "http://x/u.zip"
           "C:\app\update.exe" None).
  vm_compute. reflexivity.
Defined.
